(** * Registry resolution and caching (package [registry])

    A shallow embedding of [registry/registryprovider.go]: the registry
    provider with its lazily filled cache, the factory that turns a
    persisted registry record into a live registry, the two short-form
    classifiers and the resolver that turns a type reference into
    download URLs. The two lookups of the provider are given twice: as
    functions on the store, for what one call does, and step by step
    with their lock, for what calls running at once do to the map they
    share.

    Go strings are byte strings ([string]); the regular expressions read
    them rune by rune as the [regexp] package does. *)

From Stdlib Require Import Ascii String NArith Bool.
From stdpp Require Import base option list gmap strings.

(** ** Go strings *)

Module gostring.

(** The bytes of a Go string. *)
Definition bytes (s : string) : list ascii := String.list_ascii_of_string s.
Definition of_bytes (l : list ascii) : string := String.string_of_list_ascii l.

(** [strings.HasPrefix(s, prefix)]. *)
Definition HasPrefix (s prefix : string) : bool := String.prefix prefix s.

(** [strings.Split(s, sep)] for a separator of one byte: the pieces of
    [s] between the occurrences of [sep]; a string without [sep] (the
    empty string too) gives one piece. *)
Fixpoint Split (s : string) (sep : ascii) : list string :=
  match s with
  | EmptyString => [EmptyString]
  | String c s' =>
      if Ascii.eqb c sep then EmptyString :: Split s' sep
      else match Split s' sep with
           | w :: ws => String c w :: ws
           | [] => [String c EmptyString]
           end
  end.

End gostring.

(** ** UTF-8 decoding, as [unicode/utf8.DecodeRuneInString] steps *)

Module utf8.

Definition between (lo hi : N) (b : ascii) : bool :=
  ((lo <=? N_of_ascii b) && (N_of_ascii b <=? hi))%N.

(** Continuation bytes [locb..hicb]. *)
Definition cont (b : ascii) : bool := between 128 191 b.

(** The range accepted for the second byte after lead byte [x]
    (table [acceptRanges]). *)
Definition second (x : N) (b : ascii) : bool :=
  if (x =? 224)%N then between 160 191 b
  else if (x =? 237)%N then between 128 159 b
  else if (x =? 240)%N then between 144 191 b
  else if (x =? 244)%N then between 128 143 b
  else cont b.

(** Number of bytes of the first rune of [s]: 1 for an ASCII byte and
    for a byte that starts no well-formed sequence (decoded as
    [RuneError] of width 1), 2 to 4 for a well-formed sequence. *)
Definition width (s : list ascii) : nat :=
  match s with
  | [] => 0
  | b0 :: t =>
      let x := N_of_ascii b0 in
      if (x <? 194)%N then 1
      else if (x <? 224)%N then
        match t with
        | b1 :: _ => if second x b1 then 2 else 1
        | _ => 1
        end
      else if (x <? 240)%N then
        match t with
        | b1 :: b2 :: _ => if second x b1 && cont b2 then 3 else 1
        | _ => 1
        end
      else if (x <? 245)%N then
        match t with
        | b1 :: b2 :: b3 :: _ =>
            if second x b1 && cont b2 && cont b3 then 4 else 1
        | _ => 1
        end
      else 1
  end.

(** A rune is kept as the bytes it was decoded from. *)
Definition rune := list ascii.

(** The runes of a byte string, decoded from its start. *)
Fixpoint runes (s : list ascii) : list rune :=
  match s with
  | [] => []
  | b0 :: t0 =>
      match width s, t0 with
      | 2, b1 :: t1 => [b0; b1] :: runes t1
      | 3, b1 :: b2 :: t2 => [b0; b1; b2] :: runes t2
      | 4, b1 :: b2 :: b3 :: t3 => [b0; b1; b2; b3] :: runes t3
      | _, _ => [b0] :: runes t0
      end
  end.

Definition of_string (s : string) : list rune := runes (gostring.bytes s).
Definition to_string (rs : list rune) : string := gostring.of_bytes (concat rs).

(** The rune of one ASCII byte. *)
Definition ascii_rune (c : ascii) : rune := [c].

Definition newline : rune := ascii_rune "010"%char.

Definition rune_eqb (a b : rune) : bool := bool_decide (a = b).

End utf8.

(** ** The fragment of [regexp] that the two matchers of this package use

    Literal bytes, [.] (any rune but newline), [.*] (greedy) and
    capture groups that do not nest. Matching is leftmost-first, as Go's
    [regexp] specifies: the match a backtracking search finds first. *)

Module regexp.
Import utf8.

Inductive inst : Type :=
| Char (c : ascii)      (* one literal ASCII byte *)
| AnyNotNL              (* [.] *)
| StarAnyNotNL          (* [.*], greedy *)
| CapOpen               (* [(] *)
| CapClose.             (* [)] *)

Definition is_meta (c : ascii) : bool :=
  existsb (Ascii.eqb c) (gostring.bytes "\.+*?()|[]{}^$").

Fixpoint parse (e : list ascii) : option (list inst) :=
  match e with
  | [] => Some []
  | c :: e' =>
      if Ascii.eqb c "."%char then
        match e' with
        | c' :: e'' =>
            if Ascii.eqb c' "*"%char then cons StarAnyNotNL <$> parse e''
            else cons AnyNotNL <$> parse e'
        | [] => Some [AnyNotNL]
        end
      else if Ascii.eqb c "("%char then cons CapOpen <$> parse e'
      else if Ascii.eqb c ")"%char then cons CapClose <$> parse e'
      else if is_meta c || negb (N_of_ascii c <? 128)%N then None
      else cons (Char c) <$> parse e'
  end.

(** Groups are closed before the next one opens. *)
Fixpoint balanced (inside : bool) (p : list inst) : bool :=
  match p with
  | [] => negb inside
  | CapOpen :: p' => negb inside && balanced true p'
  | CapClose :: p' => inside && balanced false p'
  | _ :: p' => balanced inside p'
  end.

Record Regexp : Type := mkRegexp { expr : string; prog : list inst }.

(** [regexp.Compile], on this fragment. *)
Definition Compile (e : string) : option Regexp :=
  match parse (gostring.bytes e) with
  | Some p => if balanced false p then Some (mkRegexp e p) else None
  | None => None
  end.

(** [regexp.MustCompile]. Go panics at package initialisation on an
    expression that does not compile; both expressions of this package
    compile (see [TemplateRegistryMatcher_compiles] and
    [PackageRegistryMatcher_compiles]), so the default is never used. *)
Definition MustCompile (e : string) : Regexp :=
  default (mkRegexp e []) (Compile e).

Definition is_open (i : inst) : bool :=
  match i with CapOpen => true | _ => false end.

Definition NumSubexp (re : Regexp) : nat :=
  length (List.filter is_open (prog re)).

(** Run program [p] on input [s] from its first rune. [g] is the input
    as it was when the open group started, [caps] the groups closed so
    far, last first. The result is the groups in order and the input
    left after the match. *)
Fixpoint exec (p : list inst) (s g : list rune) (caps : list (list rune))
  : option (list (list rune) * list rune) :=
  match p with
  | [] => Some (rev caps, s)
  | Char c :: p' =>
      match s with
      | r :: s' => if rune_eqb r (ascii_rune c) then exec p' s' g caps else None
      | [] => None
      end
  | AnyNotNL :: p' =>
      match s with
      | r :: s' => if rune_eqb r newline then None else exec p' s' g caps
      | [] => None
      end
  | StarAnyNotNL :: p' =>
      (fix star (s : list rune) : option (list (list rune) * list rune) :=
         match s with
         | r :: s' =>
             if rune_eqb r newline then exec p' s g caps
             else match star s' with
                  | Some out => Some out
                  | None => exec p' s g caps
                  end
         | [] => exec p' s g caps
         end) s
  | CapOpen :: p' => exec p' s s caps
  | CapClose :: p' => exec p' s g (take (length g - length s) g :: caps)
  end.

(** The leftmost match: the whole match followed by the groups. *)
Fixpoint find (p : list inst) (s : list rune) : option (list (list rune)) :=
  match exec p s s [] with
  | Some (caps, rest) => Some (take (length s - length rest) s :: caps)
  | None =>
      match s with
      | [] => None
      | _ :: s' => find p s'
      end
  end.

(** [re.MatchString(s)]. *)
Definition MatchString (re : Regexp) (s : string) : bool :=
  bool_decide (is_Some (find (prog re) (of_string s))).

(** [re.FindStringSubmatch(s)]; [None] is Go's nil slice. *)
Definition FindStringSubmatch (re : Regexp) (s : string) : option (list string) :=
  fmap (M := list) to_string <$> find (prog re) (of_string s).

(** What a program accepts, declaratively: [matches p s rest] when [p]
    consumes [s] down to [rest]. *)
Fixpoint matches (p : list inst) (s rest : list rune) : Prop :=
  match p with
  | [] => s = rest
  | Char c :: p' => ∃ s', s = ascii_rune c :: s' ∧ matches p' s' rest
  | AnyNotNL :: p' => ∃ r s', s = r :: s' ∧ r ≠ newline ∧ matches p' s' rest
  | StarAnyNotNL :: p' =>
      ∃ g s', s = g ++ s' ∧ Forall (λ r, r ≠ newline) g ∧ matches p' s' rest
  | CapOpen :: p' => matches p' s rest
  | CapClose :: p' => matches p' s rest
  end.

End regexp.

(** ** Results, panics and the state monad of the package *)

(** A Go [error], by its message. *)
Abbreviation error := string (only parsing).

(** [fmt.Errorf] with one or two [%s] verbs. *)
Definition Errorf1 (pre arg : string) : error := pre +:+ arg.
Definition Errorf2 (pre a mid b : string) : error := pre +:+ a +:+ mid +:+ b.

(** A pair of results [(x, err)] whose first component may be nil. *)
Abbreviation GoRes A := (option A * option error)%type (only parsing).

Inductive PanicValue : Type :=
| PanicError (e : error)    (* [panic(err)] *)
| NilDereference.           (* run-time panic: nil pointer or nil interface used *)

Inductive Outcome (A : Type) : Type :=
| Return (a : A)
| Panic (p : PanicValue).
Arguments Return {A} a.
Arguments Panic {A} p.

(** A computation over a store [S] that returns or panics. *)
Definition M (S A : Type) : Type := S → Outcome A * S.

Definition ret {S A} (a : A) : M S A := λ s, (Return a, s).
Definition bind {S A B} (m : M S A) (k : A → M S B) : M S B :=
  λ s, match m s with
       | (Return a, s') => k a s'
       | (Panic p, s') => (Panic p, s')
       end.
Definition panic {S A} (p : PanicValue) : M S A := λ s, (Panic p, s).
Definition gets {S A} (f : S → A) : M S A := λ s, (Return (f s), s).
Definition modify {S} (f : S → S) : M S unit := λ s, (Return tt, f s).

(** Use of a pointer or interface value: nil panics. *)
Definition deref {S A} (x : option A) : M S A :=
  match x with
  | Some a => ret a
  | None => panic NilDereference
  end.

Declare Scope go_scope.
Delimit Scope go_scope with go.
Notation "x <~ m ;; k" := (bind m (λ x, k))
  (at level 100, m at next level, right associativity) : go_scope.
Notation "m ;;; k" := (bind m (λ _, k))
  (at level 100, right associativity) : go_scope.

(** ** Package [common]: the persisted registry record and its service *)

Module common.

(** Modelled from the spec: the struct [common.Registry], declared in
    package [common]; the specification's RegistryRecord gives its
    fields. *)
Record Registry : Type := mkRegistry {
  Name : string;
  Type_ : string;      (* [RegistryType] *)
  URL : string;
  Format : string;     (* [RegistryFormat] *)
}.

(** Modelled from the spec: the interface [common.RegistryService],
    declared in package [common], by the two methods the specification
    lists for the Metadata Source. [W] is the state of the service and
    of the world behind it. *)
Record RegistryService (W : Type) : Type := {
  Get : string → W → GoRes Registry * W;
  GetByURL : string → W → GoRes Registry * W;
}.
Arguments Get {W} _ _ _.
Arguments GetByURL {W} _ _ _.

End common.

(** ** What the package takes from outside this file

    [W] is the state of the outside world, [R] the live registries (a
    value of [R] is one instance), [T] the values of [Type], [U] those
    of [url.URL]. *)

(** What the provider and its factory use. *)
Class ProviderDeps (W R : Type) : Type := {
  (* constants of package [common] *)
  GithubRegistryType : string;
  UnversionedRegistry : string;
  OneLevelRegistry : string;
  VersionedRegistry : string;
  CollectionRegistry : string;
  (* package [util] *)
  TrimURLScheme : string → string;
  (* package [registry], other files; the third argument is always nil *)
  NewGithubPackageRegistry : string → string → W → GoRes R * W;
  NewGithubTemplateRegistry : string → string → W → GoRes R * W;
  NewInmemRegistryService : common.RegistryService W;
  (* interface [Registry]: the two getters the provider reads *)
  GetRegistryName : R → string;
  GetRegistryShortURL : R → string;
}.

(** What the resolver uses; [Σ] is the store of the provider it is
    given and of the world behind the registries. *)
Class ResolverDeps (Σ R T U : Type) : Type := {
  (* package [util] *)
  IsHttpUrl : string → bool;
  ConvertURLsToStrings : list U → list string;
  (* [net/url]: [url.Parse] and the [String] method of a URL *)
  url_Parse : string → GoRes U;
  URL_String : U → string;
  (* package [registry], other files *)
  NewType : string → string → string → T * option error;
  (* interface [Registry]: method [GetDownloadURLs] *)
  Registry_GetDownloadURLs : R → T → Σ → (list U * option error) * Σ;
}.

(** Interface [GithubRegistryProvider]. *)
Module GithubRegistryProvider.
Record t (W R : Type) : Type := {
  GetGithubRegistry : common.Registry → W → GoRes R * W;
}.
Arguments GetGithubRegistry {W R} _ _ _.
End GithubRegistryProvider.

(** Interface [RegistryProvider], over the store [Σ] of whatever
    implements it. *)
Module RegistryProvider.
Record t (Σ R : Type) : Type := {
  GetRegistryByShortURL : string → M Σ (GoRes R);
  GetRegistryByName : string → M Σ (GoRes R);
}.
Arguments GetRegistryByShortURL {Σ R} _ _.
Arguments GetRegistryByName {Σ R} _ _.
End RegistryProvider.

(** ** The provider and its cache *)

(** Calls the provider makes on the registry service. *)
Inductive Call : Type :=
| CallGet (registryName : string)
| CallGetByURL (URL : string).

(** The store the provider works on: the world outside, the map
    [registries] (shared by every copy of the provider struct, a Go map
    being a reference) and the service calls made so far. *)
Record State (W R : Type) : Type := mkState {
  world : W;
  registries : gmap string R;
  calls : list Call;
}.
Arguments mkState {W R} _ _ _.
Arguments world {W R} _.
Arguments registries {W R} _.
Arguments calls {W R} _.

(** [ParseRegistryFormat]. *)
Definition ParseRegistryFormat (rf : string) : gmap string bool :=
  foldl (λ result format, <[format := true]> result) ∅
        (gostring.Split rf ";"%char).

(** Indexing a [map[K]bool]: a missing key reads as [false]. *)
Definition index (m : gmap string bool) (k : string) : bool :=
  default false (m !! k).

Section provider.
Context {W R : Type} `{!ProviderDeps W R}.

(** [type registryProvider struct]: the lock and the map aside. *)
Record registryProvider : Type := mkProvider {
  rs : common.RegistryService W;
  grp : GithubRegistryProvider.t W R;
}.

(** A call that only the outside world sees. *)
Definition outside {A} (f : W → A * W) : M (State W R) A :=
  λ st, let '(a, w) := f (world st) in
        (Return a, mkState w (registries st) (calls st)).

Definition called (c : Call) : M (State W R) unit :=
  modify (λ st, mkState (world st) (registries st) (calls st ++ [c])).

(** [rp.registries[name] = r]. *)
Definition store (name : string) (r : R) : M (State W R) unit :=
  modify (λ st, mkState (world st) (<[name := r]> (registries st)) (calls st)).

(** Method [GetGithubRegistry] of [registryProvider]. *)
Definition GetGithubRegistry (cr : common.Registry) : W → GoRes R * W :=
  if decide (common.Type_ cr = GithubRegistryType) then
    let fMap := ParseRegistryFormat (common.Format cr) in
    if index fMap UnversionedRegistry && index fMap OneLevelRegistry then
      NewGithubPackageRegistry (common.Name cr) (common.URL cr)
    else if index fMap VersionedRegistry && index fMap CollectionRegistry then
      NewGithubTemplateRegistry (common.Name cr) (common.URL cr)
    else
      λ w, ((None, Some (Errorf1 "unknown registry format: " (common.Format cr))), w)
  else
    λ w, ((None, Some (Errorf1 "unknown registry type: " (common.Type_ cr))), w).

(** [NewRegistryProvider]: nil arguments get their defaults, the
    provider being its own factory. The map starts empty. *)
Definition NewRegistryProvider (rs : option (common.RegistryService W))
    (grp : option (GithubRegistryProvider.t W R)) : registryProvider :=
  mkProvider (default NewInmemRegistryService rs)
             (default {| GithubRegistryProvider.GetGithubRegistry := GetGithubRegistry |} grp).

Definition NewDefaultRegistryProvider : registryProvider :=
  NewRegistryProvider None None.

Definition init (w : W) : State W R := mkState w ∅ [].

(** [findRegistryByShortURL]. The loop ranges over a Go map, whose
    order the run time chooses afresh each time: [enum] is the order of
    this run, some enumeration of [registries]. *)
Definition findRegistryByShortURL (enum : list (string * R)) (URL : string) : option R :=
  let trimmed := TrimURLScheme URL in
  (fix range (l : list (string * R)) : option R :=
     match l with
     | [] => None
     | (_, r) :: l' =>
         if gostring.HasPrefix trimmed (TrimURLScheme (GetRegistryShortURL r))
         then Some r
         else range l'
     end) enum.

(** [enum] is an order in which the map of [st] can be ranged over. *)
Definition enumerates (enum : list (string * R)) (st : State W R) : Prop :=
  enum ≡ₚ map_to_list (registries st).

(** Method [GetRegistryByShortURL]; the read lock it takes and
    releases has no effect on one call running alone. *)
Definition GetRegistryByShortURL (rp : registryProvider)
    (enum : list (string * R)) (URL : string) : M (State W R) (GoRes R) :=
  (match findRegistryByShortURL enum URL with
   | Some result => ret (Some result, None)
   | None =>
       called (CallGetByURL URL) ;;;
       answer <~ outside (common.GetByURL (rs rp) URL) ;;
       match answer with
       | (_, Some err) => ret (None, Some err)
       | (cr, None) =>
           cr <~ deref cr ;;
           res <~ outside (GithubRegistryProvider.GetGithubRegistry (grp rp) cr) ;;
           match res with
           | (_, Some err) => ret (None, Some err)
           | (r, None) =>
               r <~ deref r ;;
               store (GetRegistryName r) r ;;;
               ret (Some r, None)
           end
       end
   end)%go.

(** Method [GetRegistryByName]. *)
Definition GetRegistryByName (rp : registryProvider)
    (registryName : string) : M (State W R) (GoRes R) :=
  (regs <~ gets registries ;;
   match regs !! registryName with
   | Some result => ret (Some result, None)
   | None =>
       called (CallGet registryName) ;;;
       answer <~ outside (common.Get (rs rp) registryName) ;;
       match answer with
       | (_, Some err) => ret (None, Some err)
       | (cr, None) =>
           cr <~ deref cr ;;
           res <~ outside (GithubRegistryProvider.GetGithubRegistry (grp rp) cr) ;;
           match res with
           | (_, Some err) => ret (None, Some err)
           | (r, None) =>
               r <~ deref r ;;
               store (GetRegistryName r) r ;;;
               ret (Some r, None)
           end
       end
   end)%go.

End provider.
Arguments registryProvider W R : clear implicits.

(** ** The classifiers *)

(** RE for a registry type that does support versions and has collections. *)
Definition TemplateRegistryMatcher : regexp.Regexp :=
  regexp.MustCompile "github.com/(.*)/(.*)/(.*)/(.*):(.*)".

(** RE for a registry type that does not support versions and does not
    have collections. *)
Definition PackageRegistryMatcher : regexp.Regexp :=
  regexp.MustCompile "github.com/(.*)/(.*)/(.*)".

(** [IsGithubShortType]. *)
Definition IsGithubShortType (t : string) : bool :=
  regexp.MatchString TemplateRegistryMatcher t.

(** [IsGithubShortPackageType]. *)
Definition IsGithubShortPackageType (t : string) : bool :=
  regexp.MatchString PackageRegistryMatcher t.

(** ** The resolver *)

(** What a run of the resolver does that a caller cannot see in its
    result: which matcher it consulted on which string, which short URL
    it asked the provider for, which registry it asked for URLs. *)
Inductive Event (R T : Type) : Type :=
| Consulted (re : regexp.Regexp) (t : string)
| Lookup (URL : string)
| Download (r : R) (ty : T).
Arguments Consulted {R T} re t.
Arguments Lookup {R T} URL.
Arguments Download {R T} r ty.

Record Run (Σ R T : Type) : Type := mkRun {
  sys : Σ;
  trace : list (Event R T);
}.
Arguments mkRun {Σ R T} _ _.
Arguments sys {Σ R T} _.
Arguments trace {Σ R T} _.

Section resolver.
Context {Σ R T U : Type} `{!ResolverDeps Σ R T U}.

(** A call into the provider or a registry: it sees the store [Σ] only. *)
Definition inner {A} (m : M Σ A) : M (Run Σ R T) A :=
  λ run, let '(out, σ) := m (sys run) in (out, mkRun σ (trace run)).

Definition effect {A} (f : Σ → A * Σ) : M (Run Σ R T) A :=
  inner (λ σ, let '(a, σ') := f σ in (Return a, σ')).

Definition note (e : Event R T) : M (Run Σ R T) unit :=
  modify (λ run, mkRun (sys run) (trace run ++ [e])).

(** [ShortTypeToDownloadURLs]. *)
Definition ShortTypeToDownloadURLs (rp : RegistryProvider.t Σ R) (t : string)
  : M (Run Σ R T) (list string * option error) :=
  (note (Consulted TemplateRegistryMatcher t) ;;;
   match regexp.FindStringSubmatch TemplateRegistryMatcher t with
   | Some [_; _; _; m3; m4; m5] =>
       note (Lookup t) ;;;
       res <~ inner (RegistryProvider.GetRegistryByShortURL rp t) ;;
       match res with
       | (_, Some err) => ret ([], Some err)
       | (None, None) =>
           panic (PanicError (Errorf1 "cannot get github registry for " t))
       | (Some r, None) =>
           match NewType m3 m4 m5 with
           | (_, Some err) => ret ([], Some err)
           | (ty, None) =>
               note (Download r ty) ;;;
               res <~ effect (Registry_GetDownloadURLs r ty) ;;
               match res with
               | (_, Some err) => ret ([], Some err)
               | (urls, None) => ret (ConvertURLsToStrings urls, None)
               end
           end
       end
   | _ => ret ([], Some (Errorf1 "cannot parse short github url: " t))
   end)%go.

(** [ShortTypeToPackageDownloadURLs]. *)
Definition ShortTypeToPackageDownloadURLs (rp : RegistryProvider.t Σ R) (t : string)
  : M (Run Σ R T) (list string * option error) :=
  (note (Consulted PackageRegistryMatcher t) ;;;
   match regexp.FindStringSubmatch PackageRegistryMatcher t with
   | Some [_; _; _; m3] =>
       note (Lookup t) ;;;
       res <~ inner (RegistryProvider.GetRegistryByShortURL rp t) ;;
       match res with
       | (_, Some err) => ret ([], Some err)
       | (r, None) =>
           match NewType "" m3 "" with
           | (_, Some err) => ret ([], Some err)
           | (ty, None) =>
               r <~ deref r ;;
               note (Download r ty) ;;;
               res <~ effect (Registry_GetDownloadURLs r ty) ;;
               match res with
               | (_, Some err) => ret ([], Some err)
               | (urls, None) => ret (ConvertURLsToStrings urls, None)
               end
           end
       end
   | _ => ret ([], Some (Errorf1 "Failed to parse short github url: " t))
   end)%go.

(** [GetDownloadURLs]. *)
Definition GetDownloadURLs (rp : RegistryProvider.t Σ R) (t : string)
  : M (Run Σ R T) (list string * option error) :=
  (note (Consulted TemplateRegistryMatcher t) ;;;
   if IsGithubShortType t then ShortTypeToDownloadURLs rp t
   else
     note (Consulted PackageRegistryMatcher t) ;;;
     if IsGithubShortPackageType t then ShortTypeToPackageDownloadURLs rp t
     else if IsHttpUrl t then
       match url_Parse t with
       | (_, Some err) =>
           ret ([], Some (Errorf2 "cannot parse download URL " t ": " err))
       | (result, None) =>
           result <~ deref result ;;
           ret ([URL_String result], None)
       end
     else ret ([], None))%go.

End resolver.

(** A [registryProvider] seen through the interface [RegistryProvider],
    with [order] the way the run time ranges over the map. *)
Definition implements {W R : Type} `{!ProviderDeps W R}
    (order : gmap string R → list (string * R)) (rp : registryProvider W R)
  : RegistryProvider.t (State W R) R :=
  {| RegistryProvider.GetRegistryByShortURL URL :=
       λ st, GetRegistryByShortURL rp (order (registries st)) URL st;
     RegistryProvider.GetRegistryByName := GetRegistryByName rp |}.

(** ** Stand-ins for the collaborators, as a test supplies them *)

Module double.

(** A live registry: which instance it is and what it reports. *)
Record live : Type := mkLive {
  serial : nat;
  name : string;
  shortURL : string;
  versioned : bool;
}.

(** The world counts the registries constructed so far, so that every
    construction gives a new instance. *)
Definition construct (versioned : bool) (name shortURL : string) (w : nat)
  : GoRes live * nat :=
  ((Some (mkLive w name shortURL versioned), None), S w).

Definition drop_prefix (p s : string) : option string :=
  if String.prefix p s
  then Some (String.substring (String.length p) (String.length s - String.length p) s)
  else None.

Definition trim (URL : string) : string :=
  match drop_prefix "https://" URL with
  | Some s => s
  | None => default URL (drop_prefix "http://" URL)
  end.

(** A registry service over a fixed table of records, each filed under
    the name it is asked for by. *)
Definition by_name (table : list (string * common.Registry)) (n : string)
  : GoRes common.Registry :=
  match list_find (λ e, e.1 = n) table with
  | Some (_, (_, cr)) => (Some cr, None)
  | None => (None, Some ("registry not found: " +:+ n))
  end.

Definition by_url (table : list (string * common.Registry)) (u : string)
  : GoRes common.Registry :=
  match list_find (λ e, String.prefix (trim (common.URL e.2)) (trim u) = true) table with
  | Some (_, (_, cr)) => (Some cr, None)
  | None => (None, Some ("registry not found: " +:+ u))
  end.

Definition service (table : list (string * common.Registry))
  : common.RegistryService nat :=
  {| common.Get n w := (by_name table n, w);
     common.GetByURL u w := (by_url table u, w) |}.

Definition deps : ProviderDeps nat live :=
  {| GithubRegistryType := "github";
     UnversionedRegistry := "unversioned";
     OneLevelRegistry := "one-level";
     VersionedRegistry := "versioned";
     CollectionRegistry := "collection";
     TrimURLScheme := trim;
     NewGithubPackageRegistry := construct false;
     NewGithubTemplateRegistry := construct true;
     NewInmemRegistryService := service [];
     GetRegistryName := name;
     GetRegistryShortURL := shortURL |}.

(** The provider over a table, being its own factory. *)
Definition provider (table : list (string * common.Registry))
  : registryProvider nat live :=
  NewRegistryProvider (ProviderDeps0 := deps) (Some (service table)) None.

(** A [Type] is its three components, a URL its text. *)
Definition rdeps (Σ : Type) : ResolverDeps Σ live (string * string * string) string :=
  {| IsHttpUrl s := String.prefix "http://" s || String.prefix "https://" s;
     ConvertURLsToStrings := id;
     url_Parse s := (Some s, None);
     URL_String := id;
     NewType q n v := ((q, n, v), None);
     Registry_GetDownloadURLs r ty σ :=
       (([ "https://raw.githubusercontent.com/" +:+ trim (shortURL r) +:+ "/"
           +:+ ty.1.1 +:+ "/" +:+ ty.1.2 +:+ "/" +:+ ty.2 ], None), σ) |}.

(** A provider that answers every lookup with nil and no error. *)
Definition absent (Σ : Type) : RegistryProvider.t Σ live :=
  {| RegistryProvider.GetRegistryByShortURL _ := ret (None, None);
     RegistryProvider.GetRegistryByName _ := ret (None, None) |}.

(** Two live registries and stores that have them cached. *)
Definition acme : live := mkLive 0 "acme" "github.com/acme" false.
Definition acme_charts : live :=
  mkLive 1 "acme-charts" "https://github.com/acme/charts" false.

Definition one_cached : State nat live :=
  mkState 2 {[ "acme-charts" := acme_charts ]} [].
Definition two_cached : State nat live :=
  mkState 2 (<[ "acme" := acme ]> {[ "acme-charts" := acme_charts ]}) [].

Definition helm_charts : common.Registry :=
  common.mkRegistry "helm-charts" "github" "github.com/helm/charts"
                    "unversioned;one-level".

Definition dm_templates : common.Registry :=
  common.mkRegistry "application-dm-templates" "github"
                    "github.com/kubernetes/application-dm-templates"
                    "versioned;collection".

(** The resolver's collaborators over the provider's store, and a
    provider that knows the template registry of the examples. *)
Definition resolver_deps : ResolverDeps (State nat live) live (string * string * string) string :=
  rdeps (State nat live).

Definition templates_provider : RegistryProvider.t (State nat live) live :=
  implements (ProviderDeps0 := deps) map_to_list
    (provider [("application-dm-templates", dm_templates)]).

Definition fresh : Run (State nat live) live (string * string * string) :=
  mkRun (init 0) [].

(** A service that answers every call with a nil record and a nil
    error. *)
Definition silent : common.RegistryService nat :=
  {| common.Get _ w := ((None, None), w);
     common.GetByURL _ w := ((None, None), w) |}.

Definition charts_provider : registryProvider nat live :=
  provider [("helm-charts", helm_charts)].

(** The provider of [charts_provider] behind the interface. *)
Definition charts_rp : RegistryProvider.t (State nat live) live :=
  implements (ProviderDeps0 := deps) map_to_list charts_provider.

(** A provider whose service has no record. *)
Definition empty_rp : RegistryProvider.t (State nat live) live :=
  implements (ProviderDeps0 := deps) map_to_list (provider []).

End double.

(** ** The claims of the specification, as it words them *)


(** The tags of a format string, as a set. *)
Definition tags (rf : string) : gset string := dom (ParseRegistryFormat rf).

(** Number of calls of [Get] among service calls. *)
Definition gets_issued (cs : list Call) : nat :=
  length (List.filter (λ c, match c with CallGet _ => true | _ => false end) cs).

(** [r] is in the cache of [st]. *)
Definition cached {W R : Type} (st : State W R) (r : R) : Prop :=
  ∃ name, registries st !! name = Some r.

(** The short URL of [r], scheme stripped, is a prefix of [probe], which
    is already stripped. *)
Definition serves {W R : Type} `{!ProviderDeps W R} (r : R) (probe : string) : bool :=
  gostring.HasPrefix probe (TrimURLScheme (GetRegistryShortURL r)).

(** Idempotent caching, for every name and store: two lookups of the
    same name in a row issue at most one [Get] and return the same. *)
Definition idempotent_caching {W R : Type} `{!ProviderDeps W R}
    (rp : registryProvider W R) : Prop :=
  ∀ (r : string) (st : State W R),
    let '(out1, st1) := GetRegistryByName rp r st in
    let '(out2, st2) := GetRegistryByName rp r st1 in
    gets_issued (calls st2) ≤ gets_issued (calls st) + 1 ∧ out1 = out2.

(** Scheme-insensitive matching, for every store: once a registry whose
    short URL prefixes [github.com/acme/charts] is cached, both
    spellings of the probe return the same cached entry. *)
Definition scheme_insensitive {W R : Type} `{!ProviderDeps W R}
    (rp : registryProvider W R) : Prop :=
  ∀ (st : State W R) (enum1 enum2 : list (string * R)) (r0 : R),
    cached st r0 → serves r0 "github.com/acme/charts" = true →
    enumerates enum1 st → enumerates enum2 st →
    ∃ r,
      GetRegistryByShortURL rp enum1 "https://github.com/acme/charts" st
        = (Return (Some r, None), st)
      ∧ GetRegistryByShortURL rp enum2 "http://github.com/acme/charts" st
        = (Return (Some r, None), st).

(** An ASCII byte. *)
Definition is_ascii (c : ascii) : Prop := (N_of_ascii c < 128)%N.

(** The newline byte. *)
Definition nl : ascii := "010"%char.

(** [c] is one character: its bytes decode to one rune. *)
Definition one_rune (c : string) : Prop := utf8.of_string c = [gostring.bytes c].

(** Number of groups a program closes. *)
Definition closes (p : list regexp.inst) : nat :=
  length (List.filter
            (λ i, match i with regexp.CapClose => true | _ => false end) p).

(** ASCII text as runes. *)
Definition text (s : string) : list utf8.rune :=
  utf8.ascii_rune <$> gostring.bytes s.

(** Occurrences of the ASCII character [c] among runes, and of the
    instruction [Char c] in a program. *)
Definition occurs (c : ascii) (s : list utf8.rune) : nat :=
  length (List.filter (λ r, bool_decide (r = utf8.ascii_rune c)) s).

Definition demands (c : ascii) (p : list regexp.inst) : nat :=
  length (List.filter
            (λ i, match i with
                  | regexp.Char c' => bool_decide (c' = c)
                  | _ => false
                  end) p).

(** Every cached registry is filed under the name it reports. *)
Definition keyed_by_name {W R : Type} `{!ProviderDeps W R} (st : State W R) : Prop :=
  ∀ k r, registries st !! k = Some r → GetRegistryName r = k.

(** ** The lookups as goroutines run them

    A call of a lookup is a sequence of atomic steps on what the
    goroutines share: the store of the provider, and the mutexes. The
    methods of [registryProvider] have value receivers, so a call
    through the interface, which holds a pointer, copies the struct
    and with it the embedded [sync.RWMutex]; the map in the copy is the
    same map, a Go map being a reference. *)

Module sync.

(** [sync.RWMutex]: how many readers hold it and whether a writer
    does. A method that cannot proceed gives [None]: [RLock] and [Lock]
    wait, [RUnlock] and [Unlock] of a mutex not held are fatal. *)
Record RWMutex : Type := mkRWMutex {
  readers : nat;
  writer : bool;
}.

Definition RLock (l : RWMutex) : option RWMutex :=
  if writer l then None else Some (mkRWMutex (S (readers l)) false).

Definition RUnlock (l : RWMutex) : option RWMutex :=
  match readers l with
  | 0 => None
  | S n => Some (mkRWMutex n (writer l))
  end.

Definition Lock (l : RWMutex) : option RWMutex :=
  if writer l then None
  else match readers l with
       | 0 => Some (mkRWMutex 0 true)
       | S _ => None
       end.

Definition Unlock (l : RWMutex) : option RWMutex :=
  if writer l then Some (mkRWMutex (readers l) false) else None.

End sync.

(** What the goroutines share: the store of the provider and the
    mutexes there are, a mutex being known by its place. *)
Record Heap (W R : Type) : Type := mkHeap {
  shared : State W R;
  mutexes : list sync.RWMutex;
}.
Arguments mkHeap {W R} _ _.
Arguments shared {W R} _.
Arguments mutexes {W R} _.

(** What a step leaves in the log. *)
Inductive Access (R : Type) : Type :=
| Copied (from to : nat)            (* the struct copied, its mutex from [from] to [to] *)
| RLocked (m : nat)
| RUnlocked (m : nat)
| Locked (m : nat)
| Unlocked (m : nat)
| Read (k : string)                 (* [registries[k]] read *)
| Ranged                            (* [registries] ranged over *)
| Wrote (k : string) (r : R)        (* [registries[k] = r] *)
| Asked (c : Call)                  (* the registry service called *)
| Built (cr : common.Registry).     (* the factory called *)
Arguments Copied {R} _ _.
Arguments RLocked {R} _.
Arguments RUnlocked {R} _.
Arguments Locked {R} _.
Arguments Unlocked {R} _.
Arguments Read {R} _.
Arguments Ranged {R}.
Arguments Wrote {R} _ _.
Arguments Asked {R} _.
Arguments Built {R} _.

(** A step on a lock. *)
Definition on_lock {R : Type} (e : Access R) : bool :=
  match e with
  | RLocked _ | RUnlocked _ | Locked _ | Unlocked _ => true
  | _ => false
  end.

(** The log [tr] takes the read side of the mutex [m] first, releases
    it last and does nothing on any lock in between. *)
Definition read_side_only {R : Type} (m : nat) (tr : list (Access R)) : Prop :=
  ∃ body, tr = RLocked m :: body ++ [RUnlocked m]
          ∧ Forall (λ e, on_lock e = false) body.

Module goroutine.

(** The atomic steps, by the type of what they give back: the copy of
    a struct whose mutex is [from], giving the mutex of the copy; the
    four methods of the mutex [m]; [registries[k]] read, [registries]
    ranged over and [registries[k] = r]; a call [f] of the registry
    service, noted as [c], and one of the factory on [cr]. *)
Inductive Op (W R : Type) : Type → Type :=
| CopyReceiver (from : nat) : Op W R nat
| RLock (m : nat) : Op W R unit
| RUnlock (m : nat) : Op W R unit
| Lock (m : nat) : Op W R unit
| Unlock (m : nat) : Op W R unit
| MapRead (k : string) : Op W R (option R)
| MapRange : Op W R (list (string * R))
| MapWrite (k : string) (r : R) : Op W R unit
| Service (c : Call) (f : W → GoRes common.Registry * W)
  : Op W R (GoRes common.Registry)
| Factory (cr : common.Registry) (f : W → GoRes R * W) : Op W R (GoRes R).
Arguments CopyReceiver {W R} _.
Arguments RLock {W R} _.
Arguments RUnlock {W R} _.
Arguments Lock {W R} _.
Arguments Unlock {W R} _.
Arguments MapRead {W R} _.
Arguments MapRange {W R}.
Arguments MapWrite {W R} _ _.
Arguments Service {W R} _ _.
Arguments Factory {W R} _ _.

(** A call in progress: returned, panicking, or a step and the rest. *)
Inductive Prog (W R A : Type) : Type :=
| Done (a : A)
| Fail (p : PanicValue)
| Do (X : Type) (op : Op W R X) (k : X → Prog W R A).
Arguments Done {W R A} _.
Arguments Fail {W R A} _.
Arguments Do {W R A X} _ _.

Section defs.
Context {W R : Type} `{!ProviderDeps W R}.

(** One step on the heap, with [order] the way the run time ranges
    over the map; [None] when the step cannot be taken now. *)
Definition perform {X : Type} (order : gmap string R → list (string * R))
    (op : Op W R X) (h : Heap W R) : option (X * Heap W R) :=
  let st := shared h in
  let ms := mutexes h in
  match op in Op _ _ X return option (X * Heap W R) with
  | CopyReceiver from =>
      l ← ms !! from; Some (length ms, mkHeap st (ms ++ [l]))
  | RLock m =>
      l ← ms !! m; l' ← sync.RLock l; Some (tt, mkHeap st (<[m := l']> ms))
  | RUnlock m =>
      l ← ms !! m; l' ← sync.RUnlock l; Some (tt, mkHeap st (<[m := l']> ms))
  | Lock m =>
      l ← ms !! m; l' ← sync.Lock l; Some (tt, mkHeap st (<[m := l']> ms))
  | Unlock m =>
      l ← ms !! m; l' ← sync.Unlock l; Some (tt, mkHeap st (<[m := l']> ms))
  | MapRead k => Some (registries st !! k, h)
  | MapRange => Some (order (registries st), h)
  | MapWrite k r =>
      Some (tt, mkHeap (mkState (world st) (<[k := r]> (registries st)) (calls st)) ms)
  | Service c f =>
      let '(answer, w) := f (world st) in
      Some (answer, mkHeap (mkState w (registries st) (calls st ++ [c])) ms)
  | Factory _ f =>
      let '(res, w) := f (world st) in
      Some (res, mkHeap (mkState w (registries st) (calls st)) ms)
  end.

(** What the step [op], having given [x], leaves in the log. *)
Definition logged {X : Type} (op : Op W R X) : X → Access R :=
  match op in Op _ _ X return X → Access R with
  | CopyReceiver from => λ to, Copied from to
  | RLock m => λ _, RLocked m
  | RUnlock m => λ _, RUnlocked m
  | Lock m => λ _, Locked m
  | Unlock m => λ _, Unlocked m
  | MapRead k => λ _, Read k
  | MapRange => λ _, Ranged
  | MapWrite k r => λ _, Wrote k r
  | Service c _ => λ _, Asked c
  | Factory cr _ => λ _, Built cr
  end.

(** A call running alone, to its end: the outcome, the heap it leaves
    and the log of its steps. *)
Fixpoint run {A : Type} (order : gmap string R → list (string * R))
    (p : Prog W R A) (h : Heap W R)
  : option (Outcome A * Heap W R * list (Access R)) :=
  match p with
  | Done a => Some (Return a, h, [])
  | Fail e => Some (Panic e, h, [])
  | Do op k =>
      match perform order op h with
      | Some (x, h') =>
          match run order (k x) h' with
          | Some (out, h'', tr) => Some (out, h'', logged op x :: tr)
          | None => None
          end
      | None => None
      end
  end.

(** A way the call [p] can go, whatever its steps find: the log [tr]
    and the outcome [out]. *)
Fixpoint follows {A : Type} (p : Prog W R A) (tr : list (Access R))
    (out : Outcome A) : Prop :=
  match p with
  | Done a => tr = [] ∧ out = Return a
  | Fail e => tr = [] ∧ out = Panic e
  | Do op k => ∃ x tr', tr = logged op x :: tr' ∧ follows (k x) tr' out
  end.

(** [defer cleanup()] before [body]: the deferred call runs when the
    body returns and when it panics. *)
Fixpoint defer {A : Type} (cleanup : Op W R unit) (body : Prog W R A)
  : Prog W R A :=
  match body with
  | Done a => Do cleanup (λ _, Done a)
  | Fail e => Do cleanup (λ _, Fail e)
  | Do op k => Do op (λ x, defer cleanup (k x))
  end.

(** One call, then what is done with its result. *)
Fixpoint and_then {A B : Type} (p : Prog W R A) (rest : A → Prog W R B)
  : Prog W R B :=
  match p with
  | Done a => rest a
  | Fail e => Fail e
  | Do op k => Do op (λ x, and_then (k x) rest)
  end.

(** A value of [type registryProvider struct]: where its embedded
    mutex is, and the other fields; the map is in the heap. *)
Record receiver : Type := mkReceiver {
  RWMutex : nat;
  fields : registryProvider W R;
}.

(** A call of a method with a value receiver: the method runs on a
    copy of the struct, whose mutex is a new one in the state the
    copied one is in at that moment. *)
Definition by_value {A : Type} (p : receiver) (method : receiver → Prog W R A)
  : Prog W R A :=
  Do (CopyReceiver (RWMutex p)) (λ m, method (mkReceiver m (fields p))).

(** [findRegistryByShortURL], itself called on a copy of [rp]. *)
Definition findRegistryByShortURL (rp : receiver) (URL : string)
  : Prog W R (option R) :=
  by_value rp (λ _,
    Do MapRange (λ enum, Done (findRegistryByShortURL enum URL))).

(** Method [GetRegistryByShortURL]. *)
Definition GetRegistryByShortURL (rp : receiver) (URL : string)
  : Prog W R (GoRes R) :=
  Do (RLock (RWMutex rp)) (λ _,
  defer (RUnlock (RWMutex rp))
    (and_then (findRegistryByShortURL rp URL) (λ result,
       match result with
       | Some result => Done (Some result, None)
       | None =>
           Do (Service (CallGetByURL URL) (common.GetByURL (rs (fields rp)) URL))
              (λ answer,
                 match answer with
                 | (_, Some err) => Done (None, Some err)
                 | (None, None) => Fail NilDereference
                 | (Some cr, None) =>
                     Do (Factory cr (GithubRegistryProvider.GetGithubRegistry
                                       (grp (fields rp)) cr))
                        (λ res,
                           match res with
                           | (_, Some err) => Done (None, Some err)
                           | (None, None) => Fail NilDereference
                           | (Some r, None) =>
                               Do (MapWrite (GetRegistryName r) r)
                                  (λ _, Done (Some r, None))
                           end)
                 end)
       end))).

(** Method [GetRegistryByName]. *)
Definition GetRegistryByName (rp : receiver) (registryName : string)
  : Prog W R (GoRes R) :=
  Do (RLock (RWMutex rp)) (λ _,
  defer (RUnlock (RWMutex rp))
    (Do (MapRead registryName) (λ hit,
       match hit with
       | Some result => Done (Some result, None)
       | None =>
           Do (Service (CallGet registryName)
                       (common.Get (rs (fields rp)) registryName))
              (λ answer,
                 match answer with
                 | (_, Some err) => Done (None, Some err)
                 | (None, None) => Fail NilDereference
                 | (Some cr, None) =>
                     Do (Factory cr (GithubRegistryProvider.GetGithubRegistry
                                       (grp (fields rp)) cr))
                        (λ res,
                           match res with
                           | (_, Some err) => Done (None, Some err)
                           | (None, None) => Fail NilDereference
                           | (Some r, None) =>
                               Do (MapWrite (GetRegistryName r) r)
                                  (λ _, Done (Some r, None))
                           end)
                 end)
       end))).

(** Goroutines side by side, each at some point of its call. One step:
    one of them takes its next step, the run time ranging over the map
    in one of its orders. *)
Inductive step {A : Type}
  : list (Prog W R A) * Heap W R → list (Prog W R A) * Heap W R → Prop :=
| Step (pool : list (Prog W R A)) (h h' : Heap W R) (i : nat) (X : Type)
       (op : Op W R X) (k : X → Prog W R A)
       (order : gmap string R → list (string * R)) (x : X) :
    pool !! i = Some (Do op k) →
    (∀ m, order m ≡ₚ map_to_list m) →
    perform order op h = Some (x, h') →
    step (pool, h) (<[i := k x]> pool, h').

(** The next step writes the map, or reads it. *)
Definition writes_map {A : Type} (p : Prog W R A) : bool :=
  match p with
  | Do op _ => match op with MapWrite _ _ => true | _ => false end
  | _ => false
  end.

Definition reads_map {A : Type} (p : Prog W R A) : bool :=
  match p with
  | Do op _ => match op with MapRead _ | MapRange => true | _ => false end
  | _ => false
  end.

(** A data race on the map: two goroutines whose next steps are both
    on the map, one of them a write. A step on the map waits for
    nothing, so either can go first and nothing orders the two. *)
Definition data_race {A : Type} (pool : list (Prog W R A)) : Prop :=
  ∃ i j p q, i ≠ j ∧ pool !! i = Some p ∧ pool !! j = Some q
             ∧ writes_map p = true
             ∧ (writes_map q || reads_map q) = true.

End defs.
End goroutine.

(** * Facts *)

(** ** Runes *)

Section utf8_facts.
Import utf8.

Lemma between_ascii lo hi c : (128 ≤ lo)%N → is_ascii c → between lo hi c = false.
Proof.
  unfold between, is_ascii. intros Hlo Hc. apply andb_false_iff. left.
  apply N.leb_gt. lia.
Qed.

Lemma cont_ascii c : is_ascii c → cont c = false.
Proof. apply between_ascii. lia. Qed.

Lemma second_ascii x c : is_ascii c → second x c = false.
Proof.
  intros Hc. unfold second. repeat case_match; try apply cont_ascii;
  try apply between_ascii; try done; lia.
Qed.

Lemma width_bounds s : s ≠ [] → 1 ≤ width s ≤ length s ∧ width s ≤ 4.
Proof.
  intros Hs. destruct s as [|b0 [|b1 [|b2 [|b3 t]]]]; [done|..];
    unfold width; repeat case_match; simpl; lia.
Qed.

Lemma runes_step s :
  s ≠ [] → runes s = take (width s) s :: runes (drop (width s) s).
Proof.
  intros Hs. pose proof (width_bounds s Hs) as Hw.
  destruct s as [|b0 t0]; [done|]. cbn [runes].
  remember (width (b0 :: t0)) as w eqn:Ew. clear Ew.
  destruct w as [|[|[|[|[|w]]]]]; destruct t0 as [|b1 [|b2 [|b3 t]]];
    simpl in *; try lia; reflexivity.
Qed.

Lemma runes_ind (P : list ascii → Prop) :
  P [] →
  (∀ s, s ≠ [] → P (drop (width s) s) → P s) →
  ∀ s, P s.
Proof.
  intros Hnil Hstep s. remember (length s) as n eqn:En. revert s En.
  induction n as [n IH] using lt_wf_ind. intros s ->.
  destruct (decide (s = [])) as [->|Hs]; [done|].
  apply Hstep; [done|]. eapply IH; [|done].
  pose proof (width_bounds s Hs). rewrite length_drop.
  destruct s; [done|]. simpl in *. lia.
Qed.

Lemma runes_concat s : concat (runes s) = s.
Proof.
  induction s as [|s Hs IH] using runes_ind; [done|].
  rewrite runes_step by done. simpl. rewrite IH. apply take_drop.
Qed.

Lemma width_app_ascii a c b :
  a ≠ [] → is_ascii c → width (a ++ c :: b) = width a.
Proof.
  intros Ha Hc. pose proof (cont_ascii c Hc) as Hcont.
  destruct a as [|b0 [|b1 [|b2 [|b3 t]]]]; [done|..]; unfold width; simpl;
    rewrite ?(second_ascii _ c Hc), ?Hcont, ?andb_false_r;
    repeat case_match; simplify_eq/=; try reflexivity;
    repeat match goal with
           | H : _ && _ = true |- _ => apply andb_true_iff in H as [? ?]
           end; congruence.
Qed.

Lemma runes_ascii c b : is_ascii c → runes (c :: b) = [c] :: runes b.
Proof.
  intros Hc. rewrite runes_step by done.
  assert (width (c :: b) = 1) as ->; [|done].
  unfold width, is_ascii in *. rewrite (proj2 (N.ltb_lt _ _)); [done|lia].
Qed.

(** An ASCII byte always starts a rune. *)
Lemma runes_app_ascii a c b :
  is_ascii c → runes (a ++ c :: b) = runes a ++ [c] :: runes b.
Proof.
  intros Hc. induction a as [|a Ha IH] using runes_ind.
  - by apply runes_ascii.
  - pose proof (width_bounds a Ha) as [[_ Hw] _].
    rewrite (runes_step (a ++ c :: b)) by (by destruct a).
    rewrite (runes_step a) by done.
    rewrite width_app_ascii by done.
    rewrite take_app_le, drop_app_le by done. by rewrite IH.
Qed.

Ltac split_ifs :=
  repeat match goal with
         | H : ?c = _ |- context [if ?c then _ else _] => rewrite H; simpl
         | |- context [if ?c then _ else _] => destruct c eqn:?; simpl
         end.

Lemma width_take s : s ≠ [] → width (take (width s) s) = width s.
Proof.
  intros Hs. destruct s as [|b0 [|b1 [|b2 [|b3 t]]]]; [done|..];
    unfold width; simpl; split_ifs; reflexivity.
Qed.

(** Every rune of a string decodes to itself. *)
Lemma runes_elem s r : r ∈ runes s → r ≠ [] ∧ runes r = [r].
Proof.
  induction s as [|s Hs IH] using runes_ind.
  - by intros ?%elem_of_nil.
  - rewrite runes_step by done. intros [->|Hin]%elem_of_cons; [|by apply IH].
    pose proof (width_bounds s Hs) as [[Hw1 Hw2] _].
    assert (take (width s) s ≠ []) as Hne.
    { destruct s; [done|]. destruct (width _); [lia|done]. }
    split; [done|]. rewrite runes_step by done. rewrite width_take by done.
    rewrite take_take, Nat.min_id.
    rewrite (drop_ge (take _ _)); [done|]. rewrite length_take. lia.
Qed.

(** The bytes of a rune of more than one byte are not ASCII. *)
Lemma wide_rune_bytes s :
  2 ≤ width s → Forall (λ b, ¬ is_ascii b) (take (width s) s).
Proof.
  destruct s as [|b0 [|b1 [|b2 [|b3 t]]]]; unfold width; simpl; split_ifs;
    try lia; intros _;
    repeat match goal with
           | H : _ && _ = true |- _ => apply andb_true_iff in H as [? ?]
           end;
    simpl; repeat first [apply List.Forall_nil | apply List.Forall_cons];
    intros Hc;
    first [ by rewrite (second_ascii _ _ Hc) in *
          | by rewrite (cont_ascii _ Hc) in *
          | unfold is_ascii in Hc;
            match goal with
            | H : (_ <? 194)%N = false |- _ => apply N.ltb_ge in H; lia
            end ].
Qed.

(** A rune that holds the newline byte is the newline. *)
Lemma rune_with_newline s r : r ∈ runes s → nl ∈ r → r = newline.
Proof.
  intros [Hne Hr]%runes_elem Hin.
  rewrite runes_step in Hr by done. injection Hr as Hr _.
  pose proof (width_bounds r Hne) as [[Hw _] _].
  destruct (decide (width r = 1)) as [E|E].
  - rewrite E in Hr. destruct r as [|b [|]]; try done.
    apply list_elem_of_singleton in Hin as <-. done.
  - pose proof (wide_rune_bytes r ltac:(lia)) as Hwide. rewrite Hr in Hwide.
    rewrite Forall_forall in Hwide. destruct (Hwide nl Hin). by vm_compute.
Qed.

Lemma elem_of_concat {A} (x : A) (ls : list (list A)) :
  x ∈ concat ls ↔ ∃ l, x ∈ l ∧ l ∈ ls.
Proof.
  induction ls as [|l ls IH]; simpl.
  - split; [by intros ?%elem_of_nil|]. by intros (l & _ & ?%elem_of_nil).
  - rewrite elem_of_app, IH. split.
    + intros [?|(l' & ? & ?)]; [exists l|exists l']; rewrite elem_of_cons; auto.
    + intros (l' & ? & [->|?]%elem_of_cons); eauto.
Qed.

Lemma runes_free_of_newline (g : list rune) s :
  g ⊆ runes s → Forall (λ r, r ≠ newline) g → nl ∉ concat g.
Proof.
  intros Hsub Hg Hin. apply elem_of_concat in Hin as (r & Hin & Hr).
  rewrite Forall_forall in Hg. apply (Hg r Hr).
  eapply rune_with_newline; [by apply Hsub|done].
Qed.

Lemma newline_free_runes s : nl ∉ s → Forall (λ r, r ≠ newline) (runes s).
Proof.
  intros Hs. apply Forall_forall. intros r Hr ->. apply Hs.
  rewrite <- (runes_concat s). apply elem_of_concat. exists newline.
  split; [|done]. apply list_elem_of_singleton. done.
Qed.

Lemma bytes_app (a b : string) :
  gostring.bytes (a +:+ b) = gostring.bytes a ++ gostring.bytes b.
Proof.
  unfold gostring.bytes. induction a as [|c a IH]; [done|].
  change (String c a +:+ b) with (String c (a +:+ b)). simpl. by rewrite IH.
Qed.

Lemma of_bytes_app (a b : list ascii) :
  gostring.of_bytes (a ++ b) = gostring.of_bytes a +:+ gostring.of_bytes b.
Proof.
  unfold gostring.of_bytes. induction a as [|c a IH]; [done|].
  simpl. rewrite IH. done.
Qed.

Lemma bytes_of_bytes l : gostring.bytes (gostring.of_bytes l) = l.
Proof. apply String.list_ascii_of_string_of_list_ascii. Qed.

Lemma of_bytes_bytes s : gostring.of_bytes (gostring.bytes s) = s.
Proof. apply String.string_of_list_ascii_of_string. Qed.

Lemma to_string_app a b : to_string (a ++ b) = to_string a +:+ to_string b.
Proof. unfold to_string. by rewrite concat_app, of_bytes_app. Qed.

Lemma to_string_of_string s : to_string (of_string s) = s.
Proof. unfold to_string, of_string. by rewrite runes_concat, of_bytes_bytes. Qed.

Lemma runes_ascii_text l b :
  Forall is_ascii l → runes (l ++ b) = (ascii_rune <$> l) ++ runes b.
Proof.
  induction 1 as [|c l Hc _ IH]; [done|].
  change ((c :: l) ++ b) with (c :: (l ++ b)).
  rewrite runes_ascii by done. by rewrite IH.
Qed.

Lemma runes_app_text a l b :
  l ≠ [] → Forall is_ascii l →
  runes (a ++ l ++ b) = runes a ++ (ascii_rune <$> l) ++ runes b.
Proof.
  intros Hl Hascii. destruct l as [|c l]; [done|].
  apply Forall_cons in Hascii as [Hc Hascii].
  change ((c :: l) ++ b) with (c :: (l ++ b)).
  rewrite runes_app_ascii by done. by rewrite runes_ascii_text.
Qed.

End utf8_facts.

(** ** The regular expression engine *)

Section regexp_facts.
Import utf8 regexp.

Lemma exec_star p s g caps :
  exec (StarAnyNotNL :: p) s g caps =
  match s with
  | r :: s' =>
      if rune_eqb r newline then exec p s g caps
      else match exec (StarAnyNotNL :: p) s' g caps with
           | Some out => Some out
           | None => exec p s g caps
           end
  | [] => exec p s g caps
  end.
Proof. destruct s; reflexivity. Qed.

Lemma exec_sound p : ∀ s g caps c rest,
  exec p s g caps = Some (c, rest) → matches p s rest.
Proof.
  induction p as [|i p IH]; intros s g caps c rest.
  - simpl. congruence.
  - destruct i.
    + simpl. destruct s as [|r s]; [done|]. unfold rune_eqb.
      case_bool_decide; [|done]. subst r. eauto.
    + simpl. destruct s as [|r s]; [done|]. unfold rune_eqb.
      case_bool_decide; [done|]. eauto 6.
    + induction s as [|r s IHs]; rewrite exec_star.
      * intros H. exists [], []. split; [done|]. split; [constructor|]. eauto.
      * unfold rune_eqb. case_bool_decide.
        { intros H'. exists [], (r :: s). split; [done|]. split; [constructor|]. eauto. }
        destruct (exec (StarAnyNotNL :: p) s g caps) as [out|] eqn:E.
        { intros [= ->]. destruct (IHs eq_refl) as (g0 & s' & -> & Hg & Hm).
          exists (r :: g0), s'. split; [done|]. split; [by constructor|done]. }
        intros H'. exists [], (r :: s). split; [done|]. split; [constructor|]. eauto.
    + simpl. eauto.
    + simpl. eauto.
Qed.

Lemma exec_complete p : ∀ s g caps rest,
  matches p s rest → is_Some (exec p s g caps).
Proof.
  induction p as [|i p IH]; intros s g caps rest.
  - simpl. eauto.
  - destruct i; simpl matches.
    + intros (s' & -> & Hm). simpl. unfold rune_eqb.
      rewrite bool_decide_eq_true_2 by done. eauto.
    + intros (r & s' & -> & Hr & Hm). simpl. unfold rune_eqb.
      rewrite bool_decide_eq_false_2 by done. eauto.
    + intros (g0 & s' & -> & Hg & Hm).
      induction Hg as [|r g0 Hr Hg IHg];
        [change ([] ++ s') with s'
        |change ((r :: g0) ++ s') with (r :: (g0 ++ s'))]; rewrite exec_star.
      * destruct s' as [|r s']; [eauto|].
        destruct (rune_eqb r newline); [eauto|].
        destruct (exec (StarAnyNotNL :: p) s' g caps); eauto.
      * unfold rune_eqb. rewrite bool_decide_eq_false_2 by done.
        destruct IHg as [out ->]. eauto.
    + eauto.
    + eauto.
Qed.

Lemma exec_groups p : ∀ s g caps c rest,
  exec p s g caps = Some (c, rest) → length c = length caps + closes p.
Proof.
  induction p as [|i p IH]; intros s g caps c rest.
  - simpl. intros [= <- _]. rewrite List.length_rev. unfold closes. simpl. lia.
  - destruct i.
    + simpl. destruct s as [|r s]; [done|]. destruct (rune_eqb _ _); [|done].
      intros H. apply IH in H. done.
    + simpl. destruct s as [|r s]; [done|]. destruct (rune_eqb _ _); [done|].
      intros H. apply IH in H. done.
    + induction s as [|r s IHs]; rewrite exec_star.
      * intros H. apply IH in H. done.
      * destruct (rune_eqb _ _); [intros H; by apply IH in H|].
        destruct (exec (StarAnyNotNL :: p) s g caps) as [out|] eqn:E.
        { intros [= ->]. by apply IHs. }
        intros H. by apply IH in H.
    + simpl. intros H. apply IH in H. done.
    + simpl. intros H. apply IH in H. rewrite H. unfold closes. simpl. lia.
Qed.

Lemma find_is_Some p s :
  is_Some (find p s) ↔ ∃ pre s1 rest, s = pre ++ s1 ∧ matches p s1 rest.
Proof.
  induction s as [|r s IHs]; simpl.
  - destruct (exec p [] [] []) as [[c rest]|] eqn:E.
    + split; [|eauto]. intros _. exists [], [], rest. split; [done|].
      by eapply exec_sound.
    + split; [by intros [? [=]]|]. intros (pre & s1 & rest & Hs & Hm).
      symmetry in Hs. apply app_eq_nil in Hs as [-> ->].
      eapply (exec_complete _ _ [] []) in Hm. rewrite E in Hm. by destruct Hm.
  - destruct (exec p (r :: s) (r :: s) []) as [[c rest]|] eqn:E.
    + split; [|eauto]. intros _. exists [], (r :: s), rest. split; [done|].
      by eapply exec_sound.
    + rewrite IHs. split.
      * intros (pre & s1 & rest & -> & Hm). by exists (r :: pre), s1, rest.
      * intros (pre & s1 & rest & Hs & Hm). destruct pre as [|r' pre].
        { simpl in Hs. subst s1.
          eapply (exec_complete _ _ (r :: s) []) in Hm. rewrite E in Hm.
          by destruct Hm. }
        injection Hs as -> ->. eauto.
Qed.

Lemma find_groups p s l : find p s = Some l → length l = S (closes p).
Proof.
  revert l. induction s as [|r s IHs]; simpl; intros l.
  - destruct (exec p [] [] []) as [[c rest]|] eqn:E; [|done].
    intros [= <-]. apply exec_groups in E. simpl in *. lia.
  - destruct (exec p (r :: s) (r :: s) []) as [[c rest]|] eqn:E; [|by auto].
    intros [= <-]. apply exec_groups in E. simpl in *. lia.
Qed.

(** [FindStringSubmatch] finds a match exactly when [MatchString]
    reports one, and then returns the whole match and every group. *)
Lemma FindStringSubmatch_MatchString re s :
  MatchString re s = true →
  ∃ l, FindStringSubmatch re s = Some l ∧ length l = S (closes (prog re)).
Proof.
  unfold MatchString, FindStringSubmatch. intros H.
  apply bool_decide_eq_true_1 in H as [l Hl]. rewrite Hl. simpl.
  eexists. split; [done|]. rewrite length_fmap. by eapply find_groups.
Qed.

Lemma FindStringSubmatch_no_match re s :
  MatchString re s = false → FindStringSubmatch re s = None.
Proof.
  unfold MatchString, FindStringSubmatch. intros H.
  apply bool_decide_eq_false_1 in H.
  destruct (find (prog re) (of_string s)); [|done]. destruct H. eauto.
Qed.

End regexp_facts.

(** ** The classifiers *)

Lemma TemplateRegistryMatcher_compiles :
  regexp.Compile "github.com/(.*)/(.*)/(.*)/(.*):(.*)" = Some TemplateRegistryMatcher.
Proof. reflexivity. Qed.

Lemma PackageRegistryMatcher_compiles :
  regexp.Compile "github.com/(.*)/(.*)/(.*)" = Some PackageRegistryMatcher.
Proof. reflexivity. Qed.

Lemma MatchString_matches re s :
  regexp.MatchString re s = true ↔
  ∃ pre s1 rest, utf8.of_string s = pre ++ s1 ∧ regexp.matches (regexp.prog re) s1 rest.
Proof.
  unfold regexp.MatchString. rewrite bool_decide_eq_true. apply find_is_Some.
Qed.

Ltac open_match :=
  repeat match goal with
         | H : ∃ _, _ |- _ => destruct H
         | H : _ ∧ _ |- _ => destruct H
         end; subst.


Ltac ascii_text :=
  repeat first [apply List.Forall_nil | apply List.Forall_cons; [reflexivity|]].

(** The template matcher on the runes of a string. *)
Lemma IsGithubShortType_runes (s : string) :
  IsGithubShortType s = true ↔
  ∃ pre c g1 g2 g3 g4 post,
    utf8.of_string s =
      pre ++ text "github" ++ [c] ++ text "com/" ++ g1 ++ text "/" ++ g2
          ++ text "/" ++ g3 ++ text "/" ++ g4 ++ text ":" ++ post
    ∧ c ≠ utf8.newline
    ∧ Forall (λ r, r ≠ utf8.newline) (g1 ++ g2 ++ g3 ++ g4).
Proof.
  unfold IsGithubShortType. rewrite MatchString_matches.
  let p := eval vm_compute in (regexp.prog TemplateRegistryMatcher) in
  change (regexp.prog TemplateRegistryMatcher) with p.
  split.
  - intros (pre & s1 & rest & Hs & Hm). simpl in Hm. open_match.
    match goal with
    | H : utf8.of_string s = pre ++ _ :: _ :: _ :: _ :: _ :: _ :: ?c :: _ :: _ :: _ :: _
            :: ?g1 ++ _ :: ?g2 ++ _ :: ?g3 ++ _ :: ?g4 ++ _ :: ?g5 ++ ?rest |- _ =>
        exists pre, c, g1, g2, g3, g4, (g5 ++ rest)
    end.
    split; [|split]; [| done |].
    + exact Hs.
    + rewrite !Forall_app. done.
  - intros (pre & c & g1 & g2 & g3 & g4 & post & Hs & Hc & Hg).
    rewrite !Forall_app in Hg. destruct Hg as (H1 & H2 & H3 & H4).
    exists pre, (text "github" ++ [c] ++ text "com/" ++ g1 ++ text "/" ++ g2
                   ++ text "/" ++ g3 ++ text "/" ++ g4 ++ text ":" ++ post), post.
    split; [done|]. simpl.
    do 6 (eexists; split; [reflexivity|]).
    exists c. eexists. split; [reflexivity|]. split; [done|].
    do 4 (eexists; split; [reflexivity|]).
    exists g1. eexists. split; [reflexivity|]. split; [done|].
    eexists; split; [reflexivity|].
    exists g2. eexists. split; [reflexivity|]. split; [done|].
    eexists; split; [reflexivity|].
    exists g3. eexists. split; [reflexivity|]. split; [done|].
    eexists; split; [reflexivity|].
    exists g4. eexists. split; [reflexivity|]. split; [done|].
    eexists; split; [reflexivity|].
    exists [], post. done.
Qed.



(** ** The factory *)

Ltac decide_by_compute := apply (bool_decide_unpack _); vm_compute; exact I.

Lemma ParseRegistryFormat_fold (l : list string) (m : gmap string bool) (k : string) :
  foldl (λ result format, <[format := true]> result) m l !! k
  = if decide (k ∈ l) then Some true else m !! k.
Proof.
  revert m. induction l as [|f l IH]; intros m; cbn [foldl].
  - destruct (decide (k ∈ [])) as [Hin|]; [|done]. by apply elem_of_nil in Hin.
  - rewrite IH. destruct (decide (k ∈ l)) as [Hin|Hin].
    + rewrite decide_True; [done|]. apply elem_of_cons. by right.
    + destruct (decide (k = f)) as [->|Hne].
      * rewrite lookup_insert_eq. rewrite decide_True; [done|]. apply elem_of_cons. by left.
      * rewrite lookup_insert_ne by done. rewrite decide_False; [done|].
        intros [?|?]%elem_of_cons; done.
Qed.

Lemma ParseRegistryFormat_lookup (rf k : string) :
  ParseRegistryFormat rf !! k
  = if decide (k ∈ gostring.Split rf ";"%char) then Some true else None.
Proof. unfold ParseRegistryFormat. by rewrite ParseRegistryFormat_fold, lookup_empty. Qed.

(** A tag is in the set exactly when it is a piece of the format string,
    which is when the parsed map reads [true] at it. *)
Lemma elem_of_tags (rf k : string) :
  k ∈ tags rf ↔ k ∈ gostring.Split rf ";"%char.
Proof.
  unfold tags. rewrite elem_of_dom, ParseRegistryFormat_lookup.
  destruct (decide _); split; (done || by intros [? [=]] || eauto).
Qed.

Lemma index_tags (rf k : string) :
  index (ParseRegistryFormat rf) k = true ↔ k ∈ tags rf.
Proof.
  rewrite elem_of_tags. unfold index. rewrite ParseRegistryFormat_lookup.
  destruct (decide _); simpl; split; (done || eauto).
Qed.

Lemma index_tags_false (rf k : string) :
  index (ParseRegistryFormat rf) k = false ↔ k ∉ tags rf.
Proof. rewrite <- index_tags. destruct (index _ _); split; (done || eauto). Qed.

(** C2, as the specification words it, fails: a format whose tag set is
    neither of the two named sets is still accepted when it contains one
    of them. *)
Lemma C2_larger_tag_set_accepted :
  let cr := common.mkRegistry "charts" "github" "github.com/helm/charts"
                              "unversioned;one-level;versioned" in
  tags (common.Format cr) ≠ {[ "unversioned"; "one-level" ]}
  ∧ tags (common.Format cr) ≠ {[ "versioned"; "collection" ]}
  ∧ GetGithubRegistry (ProviderDeps0 := double.deps) cr 0
    = ((Some (double.mkLive 0 "charts" "github.com/helm/charts" false), None), 1).
Proof.
  simpl. split; [|split]; [| |reflexivity].
  - intros H. assert ("versioned" ∈ tags "unversioned;one-level;versioned") as Hin.
    { apply elem_of_tags. decide_by_compute. }
    rewrite H in Hin. set_solver.
  - intros H. assert ("one-level" ∈ tags "unversioned;one-level;versioned") as Hin.
    { apply elem_of_tags. decide_by_compute. }
    rewrite H in Hin. set_solver.
Qed.

(** C2, amended: for a record of Github type, [GetGithubRegistry]
    returns what the package constructor returns when the tag set
    contains both [unversioned] and [one-level]; otherwise what the
    template constructor returns when it contains both [versioned] and
    [collection]; otherwise it fails with the unknown-format error that
    ends in the format string. For any other type it fails with the
    unknown-type error. *)
Theorem C2_GetGithubRegistry_dispatch {W R : Type} `{!ProviderDeps W R}
    (cr : common.Registry) (w : W) :
  let has := λ tag, tag ∈ tags (common.Format cr) in
  let package := has UnversionedRegistry ∧ has OneLevelRegistry in
  let template := has VersionedRegistry ∧ has CollectionRegistry in
  (common.Type_ cr = GithubRegistryType →
     (package →
        GetGithubRegistry cr w
        = NewGithubPackageRegistry (common.Name cr) (common.URL cr) w)
     ∧ (¬ package → template →
        GetGithubRegistry cr w
        = NewGithubTemplateRegistry (common.Name cr) (common.URL cr) w)
     ∧ (¬ package → ¬ template →
        GetGithubRegistry cr w
        = ((None, Some ("unknown registry format: " +:+ common.Format cr)), w)))
  ∧ (common.Type_ cr ≠ GithubRegistryType →
     GetGithubRegistry cr w
     = ((None, Some ("unknown registry type: " +:+ common.Type_ cr)), w)).
Proof.
  intros has package template. unfold GetGithubRegistry. split.
  - intros Hty. rewrite decide_True by done.
    destruct (index _ UnversionedRegistry) eqn:E1;
      destruct (index _ OneLevelRegistry) eqn:E2;
      destruct (index _ VersionedRegistry) eqn:E3;
      destruct (index _ CollectionRegistry) eqn:E4;
      rewrite ?index_tags, ?index_tags_false in *; simpl;
      unfold package, template, has; (split; [|split]); intros; tauto.
  - intros Hty. by rewrite decide_False by done.
Qed.

Lemma C2_witness :
  GetGithubRegistry (ProviderDeps0 := double.deps) double.dm_templates 0
  = double.construct true "application-dm-templates"
      "github.com/kubernetes/application-dm-templates" 0.
Proof.
  apply (C2_GetGithubRegistry_dispatch (ProviderDeps0 := double.deps)
           double.dm_templates 0).
  - reflexivity.
  - intros [_ H]. apply elem_of_tags in H. revert H. decide_by_compute.
  - split; apply elem_of_tags; decide_by_compute.
Defined.

(** ** The provider *)

Section provider_facts.
Context {W R : Type} `{!ProviderDeps W R}.
Implicit Types (rp : registryProvider W R) (st : State W R).

Ltac step_go :=
  unfold bind, gets, ret, called, outside, store, deref, modify, panic; simpl.

(** What one lookup by name does, case by case. *)
Lemma GetRegistryByName_cases rp key st out st' :
  GetRegistryByName rp key st = (out, st') →
  (∃ r, registries st !! key = Some r ∧ out = Return (Some r, None) ∧ st' = st)
  ∨ (registries st !! key = None
     ∧ calls st' = calls st ++ [CallGet key]
     ∧ (registries st' = registries st
          ∧ (∀ r, out ≠ Return (Some r, None))
        ∨ ∃ r, out = Return (Some r, None)
               ∧ registries st' = <[GetRegistryName r := r]> (registries st))).
Proof.
  unfold GetRegistryByName. step_go.
  destruct (registries st !! key) as [r|] eqn:Hhit.
  { intros [= <- <-]. left. eauto. }
  intros H. right. split; [done|]. revert H.
  destruct (common.Get (rs rp) key (world st)) as [[cr [e|]] w1]; simpl.
  { intros [= <- <-]. simpl. split; [done|]. left. split; [done|]. by intros r. }
  destruct cr as [cr|]; simpl.
  2:{ intros [= <- <-]. simpl. split; [done|]. left. split; [done|]. by intros r. }
  destruct (GithubRegistryProvider.GetGithubRegistry (grp rp) cr w1)
    as [[r [e|]] w2]; simpl.
  { intros [= <- <-]. simpl. split; [done|]. left. split; [done|]. by intros ?. }
  destruct r as [r|]; simpl.
  2:{ intros [= <- <-]. simpl. split; [done|]. left. split; [done|]. by intros r. }
  intros [= <- <-]. simpl. split; [done|]. right. eauto.
Qed.

Lemma findRegistryByShortURL_cons k r enum URL :
  findRegistryByShortURL ((k, r) :: enum) URL
  = if serves r (TrimURLScheme URL) then Some r
    else findRegistryByShortURL enum URL.
Proof. reflexivity. Qed.

Lemma findRegistryByShortURL_Some enum URL r :
  findRegistryByShortURL enum URL = Some r →
  ∃ k, (k, r) ∈ enum ∧ serves r (TrimURLScheme URL) = true.
Proof.
  induction enum as [|[k r'] enum IH]; [done|].
  rewrite findRegistryByShortURL_cons.
  destruct (serves r' (TrimURLScheme URL)) eqn:E.
  - intros [= ->]. exists k. split; [apply elem_of_cons; by left|done].
  - intros H. destruct (IH H) as (k' & Hin & Hs). exists k'.
    split; [apply elem_of_cons; by right|done].
Qed.

Lemma findRegistryByShortURL_None enum URL :
  findRegistryByShortURL enum URL = None →
  ∀ k r, (k, r) ∈ enum → serves r (TrimURLScheme URL) = false.
Proof.
  induction enum as [|[k r'] enum IH]; intros H k0 r0 Hin.
  - by apply elem_of_nil in Hin.
  - rewrite findRegistryByShortURL_cons in H.
    destruct (serves r' (TrimURLScheme URL)) eqn:E; [done|].
    apply elem_of_cons in Hin as [[= -> ->]|Hin]; [done|]. by eapply IH.
Qed.

Lemma enumerates_elem enum st k r :
  enumerates enum st → (k, r) ∈ enum ↔ registries st !! k = Some r.
Proof.
  unfold enumerates. intros ->. apply elem_of_map_to_list.
Qed.

(** What one lookup by short URL does, case by case. *)
Lemma GetRegistryByShortURL_cases rp enum URL st out st' :
  GetRegistryByShortURL rp enum URL st = (out, st') →
  (∃ r, findRegistryByShortURL enum URL = Some r
        ∧ out = Return (Some r, None) ∧ st' = st)
  ∨ (findRegistryByShortURL enum URL = None
     ∧ calls st' = calls st ++ [CallGetByURL URL]
     ∧ (registries st' = registries st
          ∧ (∀ r, out ≠ Return (Some r, None))
        ∨ ∃ r, out = Return (Some r, None)
               ∧ registries st' = <[GetRegistryName r := r]> (registries st))).
Proof.
  unfold GetRegistryByShortURL. step_go.
  destruct (findRegistryByShortURL enum URL) as [r|] eqn:Hhit.
  { intros [= <- <-]. left. eauto. }
  intros H. right. split; [done|]. revert H. step_go.
  destruct (common.GetByURL (rs rp) URL (world st)) as [[cr [e|]] w1]; simpl.
  { intros [= <- <-]. simpl. split; [done|]. left. split; [done|]. by intros r. }
  destruct cr as [cr|]; simpl.
  2:{ intros [= <- <-]. simpl. split; [done|]. left. split; [done|]. by intros r. }
  destruct (GithubRegistryProvider.GetGithubRegistry (grp rp) cr w1)
    as [[r [e|]] w2]; simpl.
  { intros [= <- <-]. simpl. split; [done|]. left. split; [done|]. by intros ?. }
  destruct r as [r|]; simpl.
  2:{ intros [= <- <-]. simpl. split; [done|]. left. split; [done|]. by intros r. }
  intros [= <- <-]. simpl. split; [done|]. right. eauto.
Qed.

End provider_facts.

Section provider_claims.
Context {W R : Type} `{!ProviderDeps W R}.
Implicit Types (rp : registryProvider W R) (st : State W R).

(** C1, amended: when [GetRegistryByName r] returns a registry without
    error, and [r] was already cached or is the name that registry
    reports, then the same call made next returns the identical
    instance and changes nothing, so that it issues no call to the
    service: the two calls issue at most one [Get]. *)
Theorem C1_second_lookup_is_a_hit rp (r : string) st (g : R) st1 :
  GetRegistryByName rp r st = (Return (Some g, None), st1) →
  is_Some (registries st !! r) ∨ GetRegistryName g = r →
  GetRegistryByName rp r st1 = (Return (Some g, None), st1)
  ∧ gets_issued (calls st1) ≤ gets_issued (calls st) + 1.
Proof.
  intros H1 Hname.
  assert (registries st1 !! r = Some g
          ∧ gets_issued (calls st1) ≤ gets_issued (calls st) + 1) as [Hhit Hn].
  { apply GetRegistryByName_cases in H1
      as [(r' & Hr' & [= ->] & ->)|(Hmiss & Hcalls & Hreg)].
    - split; [done|lia].
    - split.
      + destruct Hname as [[? Hs]|Hname]; [congruence|].
        destruct Hreg as [[_ Hno]|(r' & [= <-] & ->)]; [by destruct (Hno g)|].
        rewrite Hname. apply lookup_insert_eq.
      + rewrite Hcalls. unfold gets_issued.
        rewrite List.filter_app, length_app. simpl. lia. }
  split; [|done]. unfold GetRegistryByName, bind, gets, ret. by rewrite Hhit.
Qed.

(** C7, amended: when the scheme is stripped from both probes and a
    cached registry's stripped short URL prefixes
    [github.com/acme/charts], both lookups are answered from the
    cache, without a call to the service and without a change, each by
    a cached registry whose stripped short URL prefixes the probe;
    when only one cached registry does, both return that one. *)
Theorem C7_scheme_insensitive_lookup rp st (enum1 enum2 : list (string * R)) (r0 : R) :
  TrimURLScheme "https://github.com/acme/charts" = "github.com/acme/charts" →
  TrimURLScheme "http://github.com/acme/charts" = "github.com/acme/charts" →
  cached st r0 → serves r0 "github.com/acme/charts" = true →
  enumerates enum1 st → enumerates enum2 st →
  ∃ r1 r2,
    GetRegistryByShortURL rp enum1 "https://github.com/acme/charts" st
      = (Return (Some r1, None), st)
    ∧ GetRegistryByShortURL rp enum2 "http://github.com/acme/charts" st
      = (Return (Some r2, None), st)
    ∧ cached st r1 ∧ serves r1 "github.com/acme/charts" = true
    ∧ cached st r2 ∧ serves r2 "github.com/acme/charts" = true
    ∧ ((∀ r, cached st r → serves r "github.com/acme/charts" = true → r = r0)
       → r1 = r0 ∧ r2 = r0).
Proof.
  intros Hs Hp [k0 Hk0] Hserves He1 He2.
  assert (∀ enum URL, TrimURLScheme URL = "github.com/acme/charts" →
            enumerates enum st →
            ∃ r, GetRegistryByShortURL rp enum URL st = (Return (Some r, None), st)
                 ∧ cached st r ∧ serves r "github.com/acme/charts" = true) as Hone.
  { intros enum URL Htrim He. unfold GetRegistryByShortURL.
    destruct (findRegistryByShortURL enum URL) as [r|] eqn:E.
    - apply findRegistryByShortURL_Some in E as (k & Hin & Hr).
      exists r. split; [done|]. rewrite Htrim in Hr. split; [|done].
      exists k. by eapply enumerates_elem.
    - eapply findRegistryByShortURL_None in E.
      + rewrite Htrim, Hserves in E. done.
      + by eapply enumerates_elem. }
  destruct (Hone enum1 _ Hs He1) as (r1 & Hr1 & Hc1 & Hs1).
  destruct (Hone enum2 _ Hp He2) as (r2 & Hr2 & Hc2 & Hs2).
  exists r1, r2. repeat (split; [done|]). intros Huniq. split; by apply Huniq.
Qed.

(** C9: when [GetRegistryByName] or [GetRegistryByShortURL] returns an
    error the map is as it was; the map changes only when the call
    returns a registry without error, and then by that registry being
    stored under the name it reports. *)
Theorem C9_cache_changes_only_on_success rp (enum : list (string * R))
    (key : string) st (out : Outcome (GoRes R)) st' :
  GetRegistryByName rp key st = (out, st')
  ∨ GetRegistryByShortURL rp enum key st = (out, st') →
  (∀ x e, out = Return (x, Some e) → registries st' = registries st)
  ∧ (registries st' ≠ registries st →
     ∃ r, out = Return (Some r, None)
          ∧ registries st' = <[GetRegistryName r := r]> (registries st)).
Proof.
  intros H.
  assert (registries st' = registries st ∧ (∀ r, out ≠ Return (Some r, None))
          ∨ (∃ r, out = Return (Some r, None)
             ∧ (registries st' = registries st
                ∨ registries st' = <[GetRegistryName r := r]> (registries st))))
    as Hcases.
  { destruct H as [H|H].
    - apply GetRegistryByName_cases in H
        as [(r & _ & -> & ->)|(_ & _ & [[? ?]|(r & -> & ?)])]; eauto 6.
    - apply GetRegistryByShortURL_cases in H
        as [(r & _ & -> & ->)|(_ & _ & [[? ?]|(r & -> & ?)])]; eauto 6. }
  split.
  - intros x e ->. destruct Hcases as [[? _]|(r & [=] & _)]. done.
  - intros Hne. destruct Hcases as [[? _]|(r & -> & [?|?])]; [done|done|eauto].
Qed.

End provider_claims.

Ltac enumerates_by_compute :=
  unfold enumerates;
  match goal with
  | |- _ ≡ₚ ?m => let l := eval vm_compute in m in change m with l
  end;
  first [reflexivity | apply perm_swap].

(** C1, as the specification words it, fails: a service that files the
    record [helm-charts] under the name [charts] is asked twice by two
    lookups of [charts] in a row, the registry being cached under the
    name it reports, and the second lookup constructs a second instance. *)
Lemma C1_lookup_name_not_cached :
  ¬ idempotent_caching (ProviderDeps0 := double.deps)
      (double.provider [("charts", double.helm_charts)]).
Proof.
  intros H. specialize (H "charts" (init 0)). vm_compute in H.
  destruct H as [_ H]. discriminate H.
Qed.

Lemma C1_witness :
  let rp := double.provider [("helm-charts", double.helm_charts)] in
  let g := double.mkLive 0 "helm-charts" "github.com/helm/charts" false in
  let st1 := mkState 1 {[ "helm-charts" := g ]} [CallGet "helm-charts"] in
  GetRegistryByName (ProviderDeps0 := double.deps) rp "helm-charts" st1
    = (Return (Some g, None), st1)
  ∧ gets_issued (calls st1) ≤ gets_issued (calls (init (R := double.live) 0)) + 1.
Proof.
  intros rp g st1.
  apply (C1_second_lookup_is_a_hit (ProviderDeps0 := double.deps)
           rp "helm-charts" (init 0) g st1).
  - reflexivity.
  - right. reflexivity.
Defined.

(** C7, as the specification words it, fails: with two cached registries
    whose short URLs both prefix the probe, a lookup returns whichever
    the map yields first, and the map may yield them in another order
    the next time. *)
Lemma C7_first_match_in_range_order :
  ¬ scheme_insensitive (ProviderDeps0 := double.deps) (double.provider []).
Proof.
  intros H.
  destruct (H double.two_cached
              [("acme", double.acme); ("acme-charts", double.acme_charts)]
              [("acme-charts", double.acme_charts); ("acme", double.acme)]
              double.acme_charts) as (r & H1 & H2).
  - exists "acme-charts". reflexivity.
  - reflexivity.
  - enumerates_by_compute.
  - enumerates_by_compute.
  - vm_compute in H1, H2. congruence.
Qed.

Lemma C7_witness :
  let enum := [("acme-charts", double.acme_charts)] in
  ∃ r1 r2,
    GetRegistryByShortURL (ProviderDeps0 := double.deps) (double.provider [])
        enum "https://github.com/acme/charts" double.one_cached
      = (Return (Some r1, None), double.one_cached)
    ∧ GetRegistryByShortURL (ProviderDeps0 := double.deps) (double.provider [])
        enum "http://github.com/acme/charts" double.one_cached
      = (Return (Some r2, None), double.one_cached)
    ∧ cached double.one_cached r1
    ∧ serves (ProviderDeps0 := double.deps) r1 "github.com/acme/charts" = true
    ∧ cached double.one_cached r2
    ∧ serves (ProviderDeps0 := double.deps) r2 "github.com/acme/charts" = true
    ∧ ((∀ r, cached double.one_cached r →
             serves (ProviderDeps0 := double.deps) r "github.com/acme/charts" = true →
             r = double.acme_charts)
       → r1 = double.acme_charts ∧ r2 = double.acme_charts).
Proof.
  intros enum.
  apply (C7_scheme_insensitive_lookup (ProviderDeps0 := double.deps)
           (double.provider []) double.one_cached enum enum double.acme_charts).
  - reflexivity.
  - reflexivity.
  - exists "acme-charts". reflexivity.
  - reflexivity.
  - enumerates_by_compute.
  - enumerates_by_compute.
Defined.

Lemma C9_witness :
  let run := GetRegistryByName (ProviderDeps0 := double.deps)
               (double.provider []) "charts" (init 0) in
  registries run.2 = registries (init (R := double.live) 0).
Proof.
  intros run.
  refine (proj1 (C9_cache_changes_only_on_success (ProviderDeps0 := double.deps)
                  (double.provider []) [] "charts" (init 0) run.1 run.2 _)
            None "registry not found: charts" _).
  - left. reflexivity.
  - reflexivity.
Defined.

(** ** The resolver *)

Lemma template_groups (t : string) :
  IsGithubShortType t = true →
  ∃ m0 owner repo qualifier name version,
    regexp.FindStringSubmatch TemplateRegistryMatcher t
    = Some [m0; owner; repo; qualifier; name; version].
Proof.
  intros H. apply FindStringSubmatch_MatchString in H as (l & -> & Hlen).
  change (closes (regexp.prog TemplateRegistryMatcher)) with 5 in Hlen.
  do 7 (destruct l as [|? l]; try discriminate Hlen). eauto 7.
Qed.

Lemma package_groups (t : string) :
  IsGithubShortPackageType t = true →
  ∃ m0 owner repo name,
    regexp.FindStringSubmatch PackageRegistryMatcher t = Some [m0; owner; repo; name].
Proof.
  intros H. apply FindStringSubmatch_MatchString in H as (l & -> & Hlen).
  change (closes (regexp.prog PackageRegistryMatcher)) with 3 in Hlen.
  do 5 (destruct l as [|? l]; try discriminate Hlen). eauto 7.
Qed.

Lemma matchers_differ : TemplateRegistryMatcher ≠ PackageRegistryMatcher.
Proof. discriminate. Qed.

Section resolver_claims.
Context {Σ R T U : Type} `{!ResolverDeps Σ R T U}.
Implicit Types (rp : RegistryProvider.t Σ R) (run : Run Σ R T).

Ltac step_go :=
  unfold bind, ret, note, inner, effect, deref, modify, panic; simpl.

(** C4: on a string of the template short form [GetDownloadURLs] takes
    the template path. It consults the template matcher, asks the
    provider once, for the whole string, and never consults the
    package matcher; when the provider returns a registry, the [Type]
    is made from the third, fourth and fifth group ([storage], [redis]
    and [v1] in the example) and the registry answers, the result is
    its URLs converted to strings. *)
Theorem C4_template_path rp (t : string) run :
  IsGithubShortType t = true →
  ∃ m0 owner repo qualifier name version,
    regexp.FindStringSubmatch TemplateRegistryMatcher t
      = Some [m0; owner; repo; qualifier; name; version]
    ∧ (t = "github.com/kubernetes/application-dm-templates/storage/redis:v1" →
       (qualifier, name, version) = ("storage", "redis", "v1"))
    ∧ (∀ out run', GetDownloadURLs rp t run = (out, run') →
         ∃ more,
           trace run' = trace run
                        ++ [Consulted TemplateRegistryMatcher t;
                            Consulted TemplateRegistryMatcher t;
                            Lookup t] ++ more
           ∧ ∀ t', Consulted PackageRegistryMatcher t' ∉ more)
    ∧ (∀ r σ1 ty urls σ2,
         RegistryProvider.GetRegistryByShortURL rp t (sys run)
           = (Return (Some r, None), σ1) →
         NewType qualifier name version = (ty, None) →
         Registry_GetDownloadURLs r ty σ1 = ((urls, None), σ2) →
         GetDownloadURLs rp t run
         = (Return (ConvertURLsToStrings urls, None),
            mkRun σ2 (trace run
                      ++ [Consulted TemplateRegistryMatcher t;
                          Consulted TemplateRegistryMatcher t;
                          Lookup t; Download r ty]))).
Proof.
  intros Hm.
  destruct (template_groups t Hm)
    as (m0 & owner & repo & qualifier & name & version & Hfind).
  exists m0, owner, repo, qualifier, name, version.
  split; [done|]. split; [|split].
  - intros ->. revert Hfind. vm_compute. by intros [= <- <- <- <- <- <-].
  - intros out run'. unfold GetDownloadURLs, ShortTypeToDownloadURLs.
    step_go. rewrite Hm, Hfind. step_go. rewrite <- !app_assoc. simpl.
    destruct (RegistryProvider.GetRegistryByShortURL rp t (sys run))
      as [[[[r|] [e|]]|p] σ1]; simpl;
      try (intros [= <- <-]; exists []; split; [done|];
           intros t'; apply not_elem_of_nil).
    destruct (NewType qualifier name version) as [ty [e|]]; simpl;
      try (intros [= <- <-]; exists []; split; [done|];
           intros t'; apply not_elem_of_nil).
    destruct (Registry_GetDownloadURLs r ty σ1) as [[urls [e|]] σ2]; simpl;
      intros [= <- <-]; exists [Download r ty]; simpl;
      (split; [by rewrite <- !app_assoc|]);
      intros t' Hin%list_elem_of_singleton; discriminate Hin.
  - intros r σ1 ty urls σ2 Hrp Hty Hurls.
    unfold GetDownloadURLs, ShortTypeToDownloadURLs.
    step_go. rewrite Hm, Hfind. step_go. rewrite Hrp. simpl.
    rewrite Hty. simpl. rewrite Hurls. simpl. by rewrite <- !app_assoc.
Qed.

(** C5: a string that matches neither short form and is an HTTP(S) URL
    comes back as the one element of the result, as [url.Parse] and
    [String] write it, without error; when [url.Parse] fails the result
    is the error that says so. Either way the provider is not asked
    and nothing changes but the two consultations. *)
Theorem C5_http_url rp (t : string) run :
  IsGithubShortType t = false →
  IsGithubShortPackageType t = false →
  IsHttpUrl t = true →
  let run' := mkRun (sys run)
                (trace run ++ [Consulted TemplateRegistryMatcher t;
                               Consulted PackageRegistryMatcher t]) in
  (∀ u, url_Parse t = (Some u, None) →
        GetDownloadURLs rp t run = (Return ([URL_String u], None), run'))
  ∧ (∀ x err, url_Parse t = (x, Some err) →
        GetDownloadURLs rp t run
        = (Return ([], Some ("cannot parse download URL " +:+ t +:+ ": " +:+ err)),
           run')).
Proof.
  intros Ht Hp Hu run'. unfold GetDownloadURLs. step_go.
  rewrite Ht, Hp, Hu. unfold run'.
  split; [intros u ->|intros x err ->]; step_go; by rewrite <- !app_assoc.
Qed.

(** C6: a string that matches neither short form and is no HTTP(S) URL
    gives the empty result and no error; the provider is not asked. *)
Theorem C6_primitive_type rp (t : string) run :
  IsGithubShortType t = false →
  IsGithubShortPackageType t = false →
  IsHttpUrl t = false →
  GetDownloadURLs rp t run
  = (Return ([], None),
     mkRun (sys run)
       (trace run ++ [Consulted TemplateRegistryMatcher t;
                      Consulted PackageRegistryMatcher t])).
Proof.
  intros Ht Hp Hu. unfold GetDownloadURLs. step_go.
  rewrite Ht, Hp, Hu. step_go. by rewrite <- !app_assoc.
Qed.

(** C10: when the provider returns nil with a nil error,
    [ShortTypeToDownloadURLs] panics with its own error, whereas
    [ShortTypeToPackageDownloadURLs], which has no such check, goes on
    to make the [Type] and then calls [GetDownloadURLs] on the nil
    registry, a nil dereference. *)
Theorem C10_nil_registry_guard rp (t : string) run (σ1 : Σ) :
  RegistryProvider.GetRegistryByShortURL rp t (sys run)
    = (Return (None, None), σ1) →
  (IsGithubShortType t = true →
     (ShortTypeToDownloadURLs rp t run).1
     = Panic (PanicError ("cannot get github registry for " +:+ t)))
  ∧ (IsGithubShortPackageType t = true →
     ∃ m0 owner repo name,
       regexp.FindStringSubmatch PackageRegistryMatcher t
         = Some [m0; owner; repo; name]
       ∧ (ShortTypeToPackageDownloadURLs rp t run).1
         = match NewType "" name "" with
           | (_, Some err) => Return ([], Some err)
           | (_, None) => Panic NilDereference
           end).
Proof.
  intros Hrp. split.
  - intros Hm.
    destruct (template_groups t Hm) as (m0 & ? & ? & ? & ? & ? & Hfind).
    unfold ShortTypeToDownloadURLs. step_go. rewrite Hfind. step_go.
    by rewrite Hrp.
  - intros Hm. destruct (package_groups t Hm) as (m0 & owner & repo & name & Hfind).
    exists m0, owner, repo, name. split; [done|].
    unfold ShortTypeToPackageDownloadURLs. step_go. rewrite Hfind. step_go.
    rewrite Hrp. simpl. by destruct (NewType "" name "") as [ty [e|]].
Qed.

End resolver_claims.

Lemma C4_witness :
  let t := "github.com/kubernetes/application-dm-templates/storage/redis:v1" in
  ∃ m0 owner repo qualifier name version,
    regexp.FindStringSubmatch TemplateRegistryMatcher t
      = Some [m0; owner; repo; qualifier; name; version]
    ∧ (t = "github.com/kubernetes/application-dm-templates/storage/redis:v1" →
       (qualifier, name, version) = ("storage", "redis", "v1"))
    ∧ (∀ out run',
         GetDownloadURLs (ResolverDeps0 := double.resolver_deps)
           double.templates_provider t double.fresh = (out, run') →
         ∃ more,
           trace run' = trace double.fresh
                        ++ [Consulted TemplateRegistryMatcher t;
                            Consulted TemplateRegistryMatcher t;
                            Lookup t] ++ more
           ∧ ∀ t', Consulted PackageRegistryMatcher t' ∉ more)
    ∧ (∀ r σ1 ty urls σ2,
         RegistryProvider.GetRegistryByShortURL double.templates_provider t
           (sys double.fresh) = (Return (Some r, None), σ1) →
         NewType (ResolverDeps := double.resolver_deps) qualifier name version
           = (ty, None) →
         Registry_GetDownloadURLs (ResolverDeps := double.resolver_deps) r ty σ1
           = ((urls, None), σ2) →
         GetDownloadURLs (ResolverDeps0 := double.resolver_deps)
           double.templates_provider t double.fresh
         = (Return (ConvertURLsToStrings (ResolverDeps := double.resolver_deps) urls,
                    None),
            mkRun σ2 (trace double.fresh
                      ++ [Consulted TemplateRegistryMatcher t;
                          Consulted TemplateRegistryMatcher t;
                          Lookup t; Download r ty]))).
Proof.
  intros t.
  apply (C4_template_path (ResolverDeps0 := double.resolver_deps)
           double.templates_provider t double.fresh).
  reflexivity.
Defined.

Lemma C5_witness :
  let t := "https://example.com/blob/file.yaml" in
  let run' := mkRun (sys double.fresh)
                (trace double.fresh ++ [Consulted TemplateRegistryMatcher t;
                                        Consulted PackageRegistryMatcher t]) in
  (∀ u, url_Parse (ResolverDeps := double.resolver_deps) t = (Some u, None) →
        GetDownloadURLs (ResolverDeps0 := double.resolver_deps)
          double.templates_provider t double.fresh
        = (Return ([URL_String (ResolverDeps := double.resolver_deps) u], None), run'))
  ∧ (∀ x err, url_Parse (ResolverDeps := double.resolver_deps) t = (x, Some err) →
        GetDownloadURLs (ResolverDeps0 := double.resolver_deps)
          double.templates_provider t double.fresh
        = (Return ([], Some ("cannot parse download URL " +:+ t +:+ ": " +:+ err)),
           run')).
Proof.
  intros t.
  apply (C5_http_url (ResolverDeps0 := double.resolver_deps)
           double.templates_provider t double.fresh); reflexivity.
Defined.

Lemma C6_witness :
  GetDownloadURLs (ResolverDeps0 := double.resolver_deps)
    double.templates_provider "string" double.fresh
  = (Return ([], None),
     mkRun (sys double.fresh)
       (trace double.fresh ++ [Consulted TemplateRegistryMatcher "string";
                               Consulted PackageRegistryMatcher "string"])).
Proof.
  apply (C6_primitive_type (ResolverDeps0 := double.resolver_deps)
           double.templates_provider "string" double.fresh); reflexivity.
Defined.

Lemma C10_witness :
  let t := "github.com/kubernetes/application-dm-templates/storage/redis:v1" in
  let rp := double.absent (State nat double.live) in
  (IsGithubShortType t = true →
     (ShortTypeToDownloadURLs (ResolverDeps0 := double.resolver_deps)
        rp t double.fresh).1
     = Panic (PanicError ("cannot get github registry for " +:+ t)))
  ∧ (IsGithubShortPackageType t = true →
     ∃ m0 owner repo name,
       regexp.FindStringSubmatch PackageRegistryMatcher t
         = Some [m0; owner; repo; name]
       ∧ (ShortTypeToPackageDownloadURLs (ResolverDeps0 := double.resolver_deps)
            rp t double.fresh).1
         = match NewType (ResolverDeps := double.resolver_deps) "" name "" with
           | (_, Some err) => Return ([], Some err)
           | (_, None) => Panic NilDereference
           end).
Proof.
  intros t rp.
  apply (C10_nil_registry_guard (ResolverDeps0 := double.resolver_deps)
           rp t double.fresh (sys double.fresh)).
  reflexivity.
Defined.

(** ** The lookups as goroutines *)

Section mutex_places.
Context {A : Type}.

Lemma lookup_end (ms : list A) a rest : (ms ++ a :: rest) !! length ms = Some a.
Proof. by apply list_lookup_middle. Qed.

Lemma insert_end (ms : list A) a rest x :
  <[length ms := x]> (ms ++ a :: rest) = ms ++ x :: rest.
Proof.
  rewrite insert_app_r_alt; [|lia]. by rewrite Nat.sub_diag.
Qed.

Lemma lookup_end2 (ms : list A) a b rest :
  (ms ++ a :: b :: rest) !! S (length ms) = Some b.
Proof.
  rewrite (cons_middle a ms), app_assoc.
  apply list_lookup_middle. rewrite length_app. simpl. lia.
Qed.

Lemma insert_end2 (ms : list A) a b rest x :
  <[S (length ms) := x]> (ms ++ a :: b :: rest) = ms ++ a :: x :: rest.
Proof.
  rewrite insert_app_r_alt; [|lia].
  by replace (S (length ms) - length ms) with 1 by lia.
Qed.

End mutex_places.

Section goroutine_facts.
Context {W R : Type} `{!ProviderDeps W R}.
Implicit Types (p rp : goroutine.receiver (W := W) (R := R)).
Implicit Types (order : gmap string R → list (string * R)).
Implicit Types (st : State W R) (ms : list sync.RWMutex).

(** A run alone is one of the ways the call can go. *)
Lemma run_follows {A : Type} order (p : goroutine.Prog W R A) : ∀ h out h' tr,
  goroutine.run order p h = Some (out, h', tr) → goroutine.follows p tr out.
Proof.
  induction p as [a|e|X op k IH]; intros h out h' tr; simpl.
  - by intros [= <- <- <-].
  - by intros [= <- <- <-].
  - destruct (goroutine.perform order op h) as [[x h1]|]; [|done].
    destruct (goroutine.run order (k x) h1) as [[[o h2] tr']|] eqn:Hk; [|done].
    intros [= <- <- <-]. exists x, tr'. split; [done|]. by eapply IH.
Qed.

Lemma follows_defer {A : Type} (cleanup : goroutine.Op W R unit)
    (body : goroutine.Prog W R A) : ∀ tr out,
  goroutine.follows (goroutine.defer cleanup body) tr out →
  ∃ tr', tr = tr' ++ [goroutine.logged cleanup tt] ∧ goroutine.follows body tr' out.
Proof.
  induction body as [a|e|X op k IH]; intros tr out; simpl.
  - intros ([] & tr' & -> & -> & ->). by exists [].
  - intros ([] & tr' & -> & -> & ->). by exists [].
  - intros (x & tr' & -> & H). apply IH in H as (tr'' & -> & H).
    exists (goroutine.logged op x :: tr''). split; [done|]. by exists x, tr''.
Qed.

(** From the answer of the service on, no step is on a lock. *)
Ltac quiet_from_answer answer H :=
  destruct answer as [[?cr|] [?e|]]; simpl in H;
  try (destruct H as [-> _]; by repeat constructor);
  destruct H as ([[?r|] [?e|]] & ?tr & -> & H); simpl in H;
  try (destruct H as [-> _]; by repeat constructor);
  destruct H as ([] & ?tr & -> & -> & _); by repeat constructor.

Lemma GetRegistryByName_read_side_only rp key tr out :
  goroutine.follows (goroutine.GetRegistryByName rp key) tr out →
  read_side_only (goroutine.RWMutex rp) tr.
Proof.
  intros ([] & tr1 & -> & H). apply follows_defer in H as (body & -> & H).
  exists body. split; [done|].
  destruct H as (hit & tr2 & -> & H). constructor; [done|].
  destruct hit as [hit|]; simpl in H.
  { by destruct H as [-> _]. }
  destruct H as (answer & tr3 & -> & H). constructor; [done|].
  quiet_from_answer answer H.
Qed.

Lemma GetRegistryByShortURL_read_side_only rp URL tr out :
  goroutine.follows (goroutine.GetRegistryByShortURL rp URL) tr out →
  read_side_only (goroutine.RWMutex rp) tr.
Proof.
  intros ([] & tr1 & -> & H). apply follows_defer in H as (body & -> & H).
  exists body. split; [done|].
  destruct H as (m' & tr2 & -> & enum & tr3 & -> & H).
  do 2 (constructor; [done|]). simpl in H.
  destruct (findRegistryByShortURL enum URL) as [hit|]; simpl in H.
  { by destruct H as [-> _]. }
  destruct H as (answer & tr4 & -> & H). constructor; [done|].
  quiet_from_answer answer H.
Qed.

(** The deferred [RUnlock] of a call on the last mutex made, reached
    with the log [body] behind it. *)
Ltac unlocks body :=
  rewrite ?lookup_end; cbn; rewrite ?insert_end; exists body;
  split; [reflexivity|]; split; [by repeat constructor|]; try done.

(** Goroutine [i] takes its next step, [by_rewriting] giving what the
    step finds. *)
Ltac go i by_rewriting :=
  eapply rtc_l;
  [ eapply (goroutine.Step _ _ _ i) with (order := map_to_list);
    [ reflexivity | done
    | cbn; by_rewriting; cbn; rewrite ?insert_end, ?insert_end2; reflexivity ]
  | cbn; rewrite <- ?app_assoc, ?length_app; cbn; rewrite ?Nat.add_1_r ].

Lemma GetRegistryByName_alone p key order st ms l :
  ms !! goroutine.RWMutex p = Some l → sync.writer l = false →
  ∃ body,
    goroutine.run order
      (goroutine.by_value p (λ rp, goroutine.GetRegistryByName rp key))
      (mkHeap st ms)
    = Some ((GetRegistryByName (goroutine.fields p) key st).1,
            mkHeap (GetRegistryByName (goroutine.fields p) key st).2 (ms ++ [l]),
            Copied (goroutine.RWMutex p) (length ms)
              :: RLocked (length ms) :: body ++ [RUnlocked (length ms)])
    ∧ Forall (λ e, on_lock e = false) body
    ∧ (∀ r, registries st !! key = None →
            (GetRegistryByName (goroutine.fields p) key st).1 = Return (Some r, None) →
            Wrote (GetRegistryName r) r ∈ body).
Proof.
  intros Hl Hw. destruct l as [n w]. simpl in Hw. subst w.
  unfold goroutine.by_value, goroutine.GetRegistryByName, GetRegistryByName.
  cbn. rewrite Hl. cbn. rewrite lookup_end. cbn. rewrite insert_end.
  destruct (registries st !! key) as [hit|] eqn:Hhit; cbn.
  { unlocks [Read (R := R) key]. }
  unfold bind, called, outside, modify. cbn.
  destruct (common.Get (rs (goroutine.fields p)) key (world st))
    as [[[cr|] [e|]] w1]; cbn;
    try by unlocks [Read (R := R) key; Asked (CallGet key)].
  destruct (GithubRegistryProvider.GetGithubRegistry (grp (goroutine.fields p)) cr w1)
    as [[[r|] [e|]] w2]; cbn;
    try by unlocks [Read (R := R) key; Asked (CallGet key); Built cr].
  unlocks [Read key; Asked (CallGet key); Built cr; Wrote (GetRegistryName r) r].
  intros r' _ [= <-]. rewrite !elem_of_cons. tauto.
Qed.

Lemma GetRegistryByShortURL_alone p URL order st ms l :
  ms !! goroutine.RWMutex p = Some l → sync.writer l = false →
  ∃ body,
    goroutine.run order
      (goroutine.by_value p (λ rp, goroutine.GetRegistryByShortURL rp URL))
      (mkHeap st ms)
    = Some ((GetRegistryByShortURL (goroutine.fields p) (order (registries st)) URL st).1,
            mkHeap (GetRegistryByShortURL (goroutine.fields p) (order (registries st)) URL st).2
                   (ms ++ [l; sync.mkRWMutex (S (sync.readers l)) false]),
            Copied (goroutine.RWMutex p) (length ms)
              :: RLocked (length ms) :: body ++ [RUnlocked (length ms)])
    ∧ Forall (λ e, on_lock e = false) body
    ∧ (∀ r, findRegistryByShortURL (order (registries st)) URL = None →
            (GetRegistryByShortURL (goroutine.fields p) (order (registries st)) URL st).1
              = Return (Some r, None) →
            Wrote (GetRegistryName r) r ∈ body).
Proof.
  intros Hl Hw. destruct l as [n w]. simpl in Hw. subst w.
  unfold goroutine.by_value, goroutine.GetRegistryByShortURL,
    goroutine.findRegistryByShortURL, goroutine.by_value, GetRegistryByShortURL.
  cbn. rewrite Hl. cbn. rewrite lookup_end. cbn. rewrite insert_end.
  rewrite lookup_end. cbn. rewrite <- app_assoc. cbn.
  set (m' := length (ms ++ _)).
  destruct (findRegistryByShortURL (order (registries st)) URL) as [hit|] eqn:Hhit; cbn.
  { unlocks [Copied (R := R) (length ms) m'; Ranged]. }
  unfold bind, called, outside, modify. cbn.
  destruct (common.GetByURL (rs (goroutine.fields p)) URL (world st))
    as [[[cr|] [e|]] w1]; cbn;
    try by unlocks [Copied (R := R) (length ms) m'; Ranged; Asked (CallGetByURL URL)].
  destruct (GithubRegistryProvider.GetGithubRegistry (grp (goroutine.fields p)) cr w1)
    as [[[r|] [e|]] w2]; cbn;
    try by unlocks [Copied (R := R) (length ms) m'; Ranged; Asked (CallGetByURL URL); Built cr].
  unlocks [Copied (length ms) m'; Ranged; Asked (CallGetByURL URL); Built cr;
           Wrote (GetRegistryName r) r].
  intros r' _ [= <-]. rewrite !elem_of_cons. tauto.
Qed.

Lemma race_by_name p key st ms l cr1 w1 r1 w2 cr2 w3 r2 w4 :
  ms !! goroutine.RWMutex p = Some l → sync.writer l = false →
  registries st !! key = None →
  common.Get (rs (goroutine.fields p)) key (world st) = ((Some cr1, None), w1) →
  GithubRegistryProvider.GetGithubRegistry (grp (goroutine.fields p)) cr1 w1
    = ((Some r1, None), w2) →
  common.Get (rs (goroutine.fields p)) key w2 = ((Some cr2, None), w3) →
  GithubRegistryProvider.GetGithubRegistry (grp (goroutine.fields p)) cr2 w3
    = ((Some r2, None), w4) →
  let call := goroutine.by_value p (λ rp, goroutine.GetRegistryByName rp key) in
  let held := sync.mkRWMutex (S (sync.readers l)) false in
  ∃ pool,
    rtc goroutine.step
        ([call; call], mkHeap st ms)
        (pool, mkHeap (mkState w4 (registries st) (calls st ++ [CallGet key; CallGet key]))
                      (ms ++ [held; held]))
    ∧ goroutine.data_race pool
    ∧ rtc goroutine.step
        (pool, mkHeap (mkState w4 (registries st) (calls st ++ [CallGet key; CallGet key]))
                      (ms ++ [held; held]))
        ([goroutine.Done (Some r1, None); goroutine.Done (Some r2, None)],
         mkHeap (mkState w4 (<[GetRegistryName r2 := r2]>
                               (<[GetRegistryName r1 := r1]> (registries st)))
                         (calls st ++ [CallGet key; CallGet key]))
                (ms ++ [l; l])).
Proof.
  intros Hl Hw Hmiss Hget1 Hfac1 Hget2 Hfac2 call held. subst call held.
  destruct l as [n w]. simpl in Hw. subst w. cbn.
  eexists. split; [|split].
  - go 0 ltac:(rewrite Hl).
    go 1 ltac:(rewrite (lookup_app_l_Some _ _ _ _ Hl)).
    go 0 ltac:(rewrite lookup_end).
    go 0 idtac. rewrite Hmiss. cbn.
    go 0 ltac:(rewrite Hget1).
    go 0 ltac:(rewrite Hfac1).
    go 1 ltac:(rewrite lookup_end2).
    go 1 idtac. rewrite Hmiss. cbn.
    go 1 ltac:(rewrite Hget2).
    go 1 ltac:(rewrite Hfac2).
    apply rtc_refl.
  - exists 0, 1. do 2 eexists. split; [done|]. by repeat split.
  - go 0 idtac.
    go 0 ltac:(rewrite lookup_end).
    go 1 idtac.
    go 1 ltac:(rewrite lookup_end2).
    apply rtc_refl.
Qed.

Lemma race_by_short_URL p URL st ms l cr1 w1 r1 w2 cr2 w3 r2 w4 :
  ms !! goroutine.RWMutex p = Some l → sync.writer l = false →
  findRegistryByShortURL (map_to_list (registries st)) URL = None →
  common.GetByURL (rs (goroutine.fields p)) URL (world st) = ((Some cr1, None), w1) →
  GithubRegistryProvider.GetGithubRegistry (grp (goroutine.fields p)) cr1 w1
    = ((Some r1, None), w2) →
  common.GetByURL (rs (goroutine.fields p)) URL w2 = ((Some cr2, None), w3) →
  GithubRegistryProvider.GetGithubRegistry (grp (goroutine.fields p)) cr2 w3
    = ((Some r2, None), w4) →
  let call := goroutine.by_value p (λ rp, goroutine.GetRegistryByShortURL rp URL) in
  let held := sync.mkRWMutex (S (sync.readers l)) false in
  ∃ pool,
    rtc goroutine.step
        ([call; call], mkHeap st ms)
        (pool, mkHeap (mkState w4 (registries st)
                               (calls st ++ [CallGetByURL URL; CallGetByURL URL]))
                      (ms ++ [held; held; held; held]))
    ∧ goroutine.data_race pool
    ∧ rtc goroutine.step
        (pool, mkHeap (mkState w4 (registries st)
                               (calls st ++ [CallGetByURL URL; CallGetByURL URL]))
                      (ms ++ [held; held; held; held]))
        ([goroutine.Done (Some r1, None); goroutine.Done (Some r2, None)],
         mkHeap (mkState w4 (<[GetRegistryName r2 := r2]>
                               (<[GetRegistryName r1 := r1]> (registries st)))
                         (calls st ++ [CallGetByURL URL; CallGetByURL URL]))
                (ms ++ [l; l; held; held])).
Proof.
  intros Hl Hw Hmiss Hget1 Hfac1 Hget2 Hfac2 call held. subst call held.
  destruct l as [n w]. simpl in Hw. subst w. cbn.
  eexists. split; [|split].
  - go 0 ltac:(rewrite Hl).
    go 1 ltac:(rewrite (lookup_app_l_Some _ _ _ _ Hl)).
    go 0 ltac:(rewrite lookup_end).
    go 0 ltac:(rewrite lookup_end).
    go 0 idtac. rewrite Hmiss. cbn.
    go 0 ltac:(rewrite Hget1).
    go 0 ltac:(rewrite Hfac1).
    go 1 ltac:(rewrite lookup_end2).
    go 1 ltac:(rewrite lookup_end2).
    go 1 idtac. rewrite Hmiss. cbn.
    go 1 ltac:(rewrite Hget2).
    go 1 ltac:(rewrite Hfac2).
    apply rtc_refl.
  - exists 0, 1. do 2 eexists. split; [done|]. by repeat split.
  - go 0 idtac.
    go 0 ltac:(rewrite lookup_end).
    go 1 idtac.
    go 1 ltac:(rewrite lookup_end2).
    apply rtc_refl.
Qed.

(** Two calls on one and the same mutex: its read side does not keep
    them apart either. *)
Lemma race_on_one_mutex p key st ms l cr1 w1 r1 w2 cr2 w3 r2 w4 :
  ms !! goroutine.RWMutex p = Some l → sync.writer l = false →
  registries st !! key = None →
  common.Get (rs (goroutine.fields p)) key (world st) = ((Some cr1, None), w1) →
  GithubRegistryProvider.GetGithubRegistry (grp (goroutine.fields p)) cr1 w1
    = ((Some r1, None), w2) →
  common.Get (rs (goroutine.fields p)) key w2 = ((Some cr2, None), w3) →
  GithubRegistryProvider.GetGithubRegistry (grp (goroutine.fields p)) cr2 w3
    = ((Some r2, None), w4) →
  ∃ pool,
    rtc goroutine.step
        ([goroutine.GetRegistryByName p key; goroutine.GetRegistryByName p key],
         mkHeap st ms)
        (pool, mkHeap (mkState w4 (registries st) (calls st ++ [CallGet key; CallGet key]))
                      (<[goroutine.RWMutex p := sync.mkRWMutex (S (S (sync.readers l))) false]> ms))
    ∧ goroutine.data_race pool.
Proof.
  intros Hl Hw Hmiss Hget1 Hfac1 Hget2 Hfac2.
  destruct l as [n w]. simpl in Hw. subst w. cbn.
  assert (goroutine.RWMutex p < length ms) as Hlt by (by eapply lookup_lt_Some).
  eexists. split.
  - go 0 ltac:(rewrite Hl).
    go 0 idtac. rewrite Hmiss. cbn.
    go 0 ltac:(rewrite Hget1).
    go 0 ltac:(rewrite Hfac1).
    go 1 ltac:(rewrite (list_lookup_insert_eq _ _ _ Hlt)).
    rewrite list_insert_insert_eq.
    go 1 idtac. rewrite Hmiss. cbn.
    go 1 ltac:(rewrite Hget2).
    go 1 ltac:(rewrite Hfac2).
    apply rtc_refl.
  - exists 0, 1. do 2 eexists. split; [done|]. by repeat split.
Qed.

End goroutine_facts.

Section goroutine_claims.
Context {W R : Type} `{!ProviderDeps W R}.
Implicit Types (p rp : goroutine.receiver (W := W) (R := R)).
Implicit Types (order : gmap string R → list (string * R)).
Implicit Types (st : State W R) (ms : list sync.RWMutex).

(** C8: let [p] be the provider behind the interface, its mutex held by
    no writer. However a call of [GetRegistryByName] or of
    [GetRegistryByShortURL] goes, the steps it takes on locks are two:
    it takes the read side of the mutex of its receiver first and
    releases it last, on return and on panic; the write side of no
    mutex is taken. The receiver being passed by value, that mutex is
    the call's own copy of the provider's. A call running alone does
    return, with the outcome and the store of the method of the same
    name above, the provider's mutex untouched and the copy released;
    when it has missed and returns a registry, it has written the map
    between taking and releasing the read side. Two calls of the same
    lookup that would both succeed on a miss can both be past their
    [RLock], each holding the read side of its own copy and no writer
    holding anything, with the write of the map as the next step of
    both: a data race. Both have called the service, and both go on to
    write, the second over the first. The read side of one and the
    same mutex, had they shared it, would not have kept them apart
    either. *)
Theorem C8_read_side_only_and_race p order (key URL : string) st ms l :
  ms !! goroutine.RWMutex p = Some l →
  sync.writer l = false →
  let m := length ms in
  let by_name := goroutine.by_value p (λ rp, goroutine.GetRegistryByName rp key) in
  let by_URL := goroutine.by_value p (λ rp, goroutine.GetRegistryByShortURL rp URL) in
  let held := sync.mkRWMutex (S (sync.readers l)) false in
  let get := common.Get (rs (goroutine.fields p)) key in
  let get_by_URL := common.GetByURL (rs (goroutine.fields p)) URL in
  let factory := GithubRegistryProvider.GetGithubRegistry (grp (goroutine.fields p)) in
  (* however a lookup goes *)
  (∀ call tr out,
     call ∈ [by_name; by_URL] → goroutine.follows call tr out →
     ∃ copy tr', tr = Copied (goroutine.RWMutex p) copy :: tr'
                 ∧ read_side_only copy tr')
  (* a lookup alone *)
  ∧ (∃ out st' body,
       GetRegistryByName (goroutine.fields p) key st = (out, st')
       ∧ goroutine.run order by_name (mkHeap st ms)
         = Some (out, mkHeap st' (ms ++ [l]),
                 Copied (goroutine.RWMutex p) m
                   :: RLocked m :: body ++ [RUnlocked m])
       ∧ Forall (λ e, on_lock e = false) body
       ∧ ∀ r, registries st !! key = None → out = Return (Some r, None) →
              Wrote (GetRegistryName r) r ∈ body)
  ∧ (∃ out st' body,
       GetRegistryByShortURL (goroutine.fields p) (order (registries st)) URL st
         = (out, st')
       ∧ goroutine.run order by_URL (mkHeap st ms)
         = Some (out, mkHeap st' (ms ++ [l; held]),
                 Copied (goroutine.RWMutex p) m
                   :: RLocked m :: body ++ [RUnlocked m])
       ∧ Forall (λ e, on_lock e = false) body
       ∧ ∀ r, findRegistryByShortURL (order (registries st)) URL = None →
              out = Return (Some r, None) →
              Wrote (GetRegistryName r) r ∈ body)
  (* two lookups at once *)
  ∧ (∀ cr1 w1 r1 w2 cr2 w3 r2 w4,
       registries st !! key = None →
       get (world st) = ((Some cr1, None), w1) →
       factory cr1 w1 = ((Some r1, None), w2) →
       get w2 = ((Some cr2, None), w3) →
       factory cr2 w3 = ((Some r2, None), w4) →
       let asked := calls st ++ [CallGet key; CallGet key] in
       let racing := mkHeap (mkState w4 (registries st) asked) (ms ++ [held; held]) in
       ∃ pool,
         rtc goroutine.step ([by_name; by_name], mkHeap st ms) (pool, racing)
         ∧ goroutine.data_race pool
         ∧ rtc goroutine.step (pool, racing)
             ([goroutine.Done (Some r1, None); goroutine.Done (Some r2, None)],
              mkHeap (mkState w4 (<[GetRegistryName r2 := r2]>
                                    (<[GetRegistryName r1 := r1]> (registries st)))
                              asked)
                     (ms ++ [l; l])))
  ∧ (∀ cr1 w1 r1 w2 cr2 w3 r2 w4,
       findRegistryByShortURL (map_to_list (registries st)) URL = None →
       get_by_URL (world st) = ((Some cr1, None), w1) →
       factory cr1 w1 = ((Some r1, None), w2) →
       get_by_URL w2 = ((Some cr2, None), w3) →
       factory cr2 w3 = ((Some r2, None), w4) →
       let asked := calls st ++ [CallGetByURL URL; CallGetByURL URL] in
       let racing := mkHeap (mkState w4 (registries st) asked)
                            (ms ++ [held; held; held; held]) in
       ∃ pool,
         rtc goroutine.step ([by_URL; by_URL], mkHeap st ms) (pool, racing)
         ∧ goroutine.data_race pool
         ∧ rtc goroutine.step (pool, racing)
             ([goroutine.Done (Some r1, None); goroutine.Done (Some r2, None)],
              mkHeap (mkState w4 (<[GetRegistryName r2 := r2]>
                                    (<[GetRegistryName r1 := r1]> (registries st)))
                              asked)
                     (ms ++ [l; l; held; held])))
  (* were the mutex one and the same *)
  ∧ (∀ cr1 w1 r1 w2 cr2 w3 r2 w4,
       registries st !! key = None →
       get (world st) = ((Some cr1, None), w1) →
       factory cr1 w1 = ((Some r1, None), w2) →
       get w2 = ((Some cr2, None), w3) →
       factory cr2 w3 = ((Some r2, None), w4) →
       ∃ pool,
         rtc goroutine.step
             ([goroutine.GetRegistryByName p key; goroutine.GetRegistryByName p key],
              mkHeap st ms)
             (pool,
              mkHeap (mkState w4 (registries st) (calls st ++ [CallGet key; CallGet key]))
                     (<[goroutine.RWMutex p :=
                          sync.mkRWMutex (S (S (sync.readers l))) false]> ms))
         ∧ goroutine.data_race pool).
Proof.
  intros Hl Hw m by_name by_URL held get get_by_URL factory.
  split; [|split; [|split; [|split; [|split]]]].
  - intros call tr out Hcall.
    apply elem_of_cons in Hcall as [->|Hcall].
    { intros (copy & tr' & -> & H). exists copy, tr'. split; [done|].
      by eapply GetRegistryByName_read_side_only in H. }
    apply list_elem_of_singleton in Hcall as ->.
    intros (copy & tr' & -> & H). exists copy, tr'. split; [done|].
    by eapply GetRegistryByShortURL_read_side_only in H.
  - destruct (GetRegistryByName_alone p key order st ms l Hl Hw)
      as (body & Hrun & Hquiet & Hwrote).
    destruct (GetRegistryByName (goroutine.fields p) key st) as [out st'].
    exists out, st', body. by repeat split.
  - destruct (GetRegistryByShortURL_alone p URL order st ms l Hl Hw)
      as (body & Hrun & Hquiet & Hwrote).
    destruct (GetRegistryByShortURL (goroutine.fields p) (order (registries st)) URL st)
      as [out st'].
    exists out, st', body. by repeat split.
  - intros. by eapply race_by_name.
  - intros. by eapply race_by_short_URL.
  - intros. by eapply race_on_one_mutex.
Qed.

End goroutine_claims.

Lemma C8_witness :
  let p := goroutine.mkReceiver 0 double.charts_provider in
  let by_name :=
    goroutine.by_value p
      (λ rp, goroutine.GetRegistryByName (ProviderDeps0 := double.deps) rp "helm-charts") in
  let by_URL :=
    goroutine.by_value p
      (λ rp, goroutine.GetRegistryByShortURL (ProviderDeps0 := double.deps) rp
               "github.com/helm/charts") in
  let free := sync.mkRWMutex 0 false in
  let held := sync.mkRWMutex 1 false in
  (∃ pool,
     rtc goroutine.step
         ([by_name; by_name], mkHeap (init 0) [free])
         (pool,
          mkHeap (mkState 2 ∅ [CallGet "helm-charts"; CallGet "helm-charts"])
                 [free; held; held])
     ∧ goroutine.data_race pool)
  ∧ (∃ pool,
       rtc goroutine.step
           ([by_URL; by_URL], mkHeap (init 0) [free])
           (pool,
            mkHeap (mkState 2 ∅ [CallGetByURL "github.com/helm/charts";
                                 CallGetByURL "github.com/helm/charts"])
                   [free; held; held; held; held])
       ∧ goroutine.data_race pool)
  ∧ (∃ pool,
       rtc goroutine.step
           ([goroutine.GetRegistryByName (ProviderDeps0 := double.deps) p "helm-charts";
             goroutine.GetRegistryByName (ProviderDeps0 := double.deps) p "helm-charts"],
            mkHeap (init 0) [free])
           (pool,
            mkHeap (mkState 2 ∅ [CallGet "helm-charts"; CallGet "helm-charts"])
                   [sync.mkRWMutex 2 false])
       ∧ goroutine.data_race pool).
Proof.
  intros p by_name by_URL free held.
  destruct (C8_read_side_only_and_race (ProviderDeps0 := double.deps)
              p map_to_list "helm-charts" "github.com/helm/charts" (init 0)
              [free] free eq_refl eq_refl)
    as (_ & _ & _ & Hnames & HURLs & Hone).
  pose (r1 := double.mkLive 0 "helm-charts" "github.com/helm/charts" false).
  pose (r2 := double.mkLive 1 "helm-charts" "github.com/helm/charts" false).
  split; [|split].
  - destruct (Hnames double.helm_charts 0 r1 1 double.helm_charts 1 r2 2
                     eq_refl eq_refl eq_refl eq_refl eq_refl)
      as (pool & Hreach & Hrace & _).
    exists pool. split; [exact Hreach|exact Hrace].
  - destruct (HURLs double.helm_charts 0 r1 1 double.helm_charts 1 r2 2
                    eq_refl eq_refl eq_refl eq_refl eq_refl)
      as (pool & Hreach & Hrace & _).
    exists pool. split; [exact Hreach|exact Hrace].
  - destruct (Hone double.helm_charts 0 r1 1 double.helm_charts 1 r2 2
                   eq_refl eq_refl eq_refl eq_refl eq_refl)
      as (pool & Hreach & Hrace).
    exists pool. split; [exact Hreach|exact Hrace].
Defined.

(** * Further properties *)

(** ** Greedy groups *)

Section capture_facts.
Import utf8 regexp.

Lemma star_none p s g caps :
  (∀ c b', s = c ++ b' → Forall (λ r, r ≠ newline) c → exec p b' g caps = None) →
  exec (StarAnyNotNL :: p) s g caps = None.
Proof.
  induction s as [|r s IH]; intros H; rewrite exec_star.
  - by apply (H [] []).
  - unfold rune_eqb. case_bool_decide as Hr.
    + by apply (H [] (r :: s)).
    + rewrite IH.
      * by apply (H [] (r :: s)).
      * intros c b' -> Hc. apply (H (r :: c) b'); [done|by constructor].
Qed.

Lemma star_pick p a b g caps out :
  Forall (λ r, r ≠ newline) a →
  exec p b g caps = Some out →
  (∀ c b', c ≠ [] → b = c ++ b' → Forall (λ r, r ≠ newline) c →
           exec p b' g caps = None) →
  exec (StarAnyNotNL :: p) (a ++ b) g caps = Some out.
Proof.
  intros Ha Hb Hlonger. induction Ha as [|r a Hr Ha IH].
  - change ([] ++ b) with b. rewrite exec_star. destruct b as [|r b]; [done|].
    unfold rune_eqb. case_bool_decide as Hr; [done|].
    rewrite star_none; [done|].
    intros c b' -> Hc. apply (Hlonger (r :: c) b'); [done|done|by constructor].
  - change ((r :: a) ++ b) with (r :: (a ++ b)). rewrite exec_star.
    unfold rune_eqb. rewrite bool_decide_eq_false_2 by done. by rewrite IH.
Qed.

(** A group around [.*] takes [a] when the rest of the program accepts what
    follows and accepts nothing further on. *)
Lemma group_pick p a b g caps out :
  Forall (λ r, r ≠ newline) a →
  exec p b (a ++ b) (a :: caps) = Some out →
  (∀ c b' rest, c ≠ [] → b = c ++ b' → ¬ matches p b' rest) →
  exec (CapOpen :: StarAnyNotNL :: CapClose :: p) (a ++ b) g caps = Some out.
Proof.
  intros Ha Hb Hlonger.
  change (exec (CapOpen :: StarAnyNotNL :: CapClose :: p) (a ++ b) g caps)
    with (exec (StarAnyNotNL :: CapClose :: p) (a ++ b) (a ++ b) caps).
  apply star_pick; [done|..].
  - cbn [exec]. rewrite length_app.
    replace (length a + length b - length b) with (length a) by lia.
    by rewrite take_app_length.
  - intros c b' Hc -> _. cbn [exec].
    destruct (exec p b' _ _) as [[cs rest]|] eqn:E; [|done].
    apply exec_sound in E. by destruct (Hlonger c b' rest).
Qed.

Lemma occurs_app c s1 s2 : occurs c (s1 ++ s2) = occurs c s1 + occurs c s2.
Proof. unfold occurs. by rewrite List.filter_app, length_app. Qed.

Lemma matches_demands c p : ∀ s rest,
  matches p s rest → demands c p ≤ occurs c s.
Proof.
  induction p as [|i p IH]; intros s rest; [unfold demands; simpl; lia|].
  destruct i; simpl matches.
  - intros (s' & -> & Hm). apply IH in Hm. unfold demands, occurs in *. simpl.
    unfold ascii_rune in *.
    repeat case_bool_decide; simplify_eq/=; lia.
  - intros (r & s' & -> & _ & Hm). apply IH in Hm. unfold demands, occurs in *.
    simpl. case_bool_decide; simpl; lia.
  - intros (g & s' & -> & _ & Hm). apply IH in Hm. rewrite occurs_app.
    unfold demands in *. simpl. lia.
  - intros Hm. apply IH in Hm. unfold demands in *. simpl. lia.
  - intros Hm. apply IH in Hm. unfold demands in *. simpl. lia.
Qed.

Lemma occurs_hit c s : occurs c (ascii_rune c :: s) = S (occurs c s).
Proof. unfold occurs. simpl. by rewrite bool_decide_eq_true_2. Qed.

Lemma occurs_miss c r s : r ≠ ascii_rune c → occurs c (r :: s) = occurs c s.
Proof. intros H. unfold occurs. simpl. by rewrite bool_decide_eq_false_2. Qed.

Lemma occurs_absent c (s : string) :
  c ∉ gostring.bytes s → occurs c (of_string s) = 0.
Proof.
  intros H. unfold of_string.
  assert (ascii_rune c ∉ runes (gostring.bytes s)) as Hr.
  { intros Hin. apply H. rewrite <- (runes_concat (gostring.bytes s)).
    apply elem_of_concat. exists (ascii_rune c). split; [|done].
    by apply list_elem_of_singleton. }
  revert Hr. generalize (runes (gostring.bytes s)). intros l.
  induction l as [|r l IH]; [done|]. intros Hr.
  rewrite occurs_miss; [apply IH|]; intros ?; apply Hr; subst;
    rewrite elem_of_cons; auto.
Qed.

Lemma find_here p s caps rest :
  exec p s s [] = Some (caps, rest) →
  find p s = Some (take (length s - length rest) s :: caps).
Proof. intros H. destruct s; simpl; by rewrite H. Qed.

Lemma exec_char c p s g caps :
  exec (Char c :: p) (ascii_rune c :: s) g caps = exec p s g caps.
Proof. simpl. unfold rune_eqb. by rewrite bool_decide_eq_true_2. Qed.

Lemma exec_text l p s g caps :
  exec ((Char <$> l) ++ p) ((ascii_rune <$> l) ++ s) g caps = exec p s g caps.
Proof. induction l as [|c l IH]; [done|]. cbn [fmap list_fmap app]. by rewrite exec_char. Qed.

Lemma exec_any r p s g caps :
  r ≠ newline → exec (AnyNotNL :: p) (r :: s) g caps = exec p s g caps.
Proof. intros H. simpl. unfold rune_eqb. by rewrite bool_decide_eq_false_2. Qed.

Lemma exec_end s g caps : exec [] s g caps = Some (rev caps, s).
Proof. reflexivity. Qed.

End capture_facts.

Ltac no_longer_match ch :=
  let c := fresh "c" in let b' := fresh "b'" in let rest := fresh "rest" in
  let Hc := fresh "Hc" in let Hb := fresh "Hb" in let Hm := fresh "Hm" in
  intros c b' rest Hc Hb Hm;
  apply (matches_demands ch) in Hm;
  destruct c as [|? c]; [done|];
  try discriminate Hb;
  injection Hb as <- Hb;
  apply (f_equal (occurs ch)) in Hb;
  vm_compute demands in Hm;
  repeat first [ rewrite occurs_app in Hb
               | rewrite occurs_hit in Hb
               | rewrite occurs_miss in Hb by discriminate ];
  change (occurs ch []) with 0 in Hb;
  lia.

Section well_formed_short_types.
Import utf8 regexp.

Lemma template_groups_of_well_formed (owner repo qualifier type version : string) :
  Forall (λ part, nl ∉ gostring.bytes part) [owner; repo; qualifier; type; version] →
  Forall (λ part, "/"%char ∉ gostring.bytes part) [repo; qualifier; type; version] →
  ":"%char ∉ gostring.bytes version →
  let t := "github.com/" +:+ owner +:+ "/" +:+ repo +:+ "/" +:+ qualifier
           +:+ "/" +:+ type +:+ ":" +:+ version in
  FindStringSubmatch TemplateRegistryMatcher t
  = Some [t; owner; repo; qualifier; type; version].
Proof.
  intros Hnl Hslash Hcolon t.
  apply Forall_cons in Hnl as [No Hnl]. apply Forall_cons in Hnl as [Nr Hnl].
  apply Forall_cons in Hnl as [Nq Hnl]. apply Forall_cons in Hnl as [Nt Hnl].
  apply Forall_cons in Hnl as [Nv _].
  apply Forall_cons in Hslash as [Sr Hslash].
  apply Forall_cons in Hslash as [Sq Hslash].
  apply Forall_cons in Hslash as [St Hslash].
  apply Forall_cons in Hslash as [Sv _].
  apply newline_free_runes in No, Nr, Nq, Nt, Nv.
  apply occurs_absent in Sr, Sq, St, Sv, Hcolon.
  unfold FindStringSubmatch.
  assert (of_string t
          = text "github.com/" ++ of_string owner
            ++ ascii_rune "/" :: of_string repo
            ++ ascii_rune "/" :: of_string qualifier
            ++ ascii_rune "/" :: of_string type
            ++ ascii_rune ":" :: (of_string version ++ [])) as Ht.
  { unfold t, of_string. rewrite !bytes_app.
    rewrite runes_ascii_text by ascii_text.
    rewrite (runes_app_text _ (gostring.bytes "/")) by (done || ascii_text).
    rewrite (runes_app_text _ (gostring.bytes "/")) by (done || ascii_text).
    rewrite (runes_app_text _ (gostring.bytes "/")) by (done || ascii_text).
    rewrite (runes_app_text _ (gostring.bytes ":")) by (done || ascii_text).
    by rewrite app_nil_r. }
  fold (of_string owner) (of_string repo) (of_string qualifier)
       (of_string type) (of_string version) in *.
  clearbody t. erewrite find_here.
  2:{ rewrite Ht at 1.
      let p := eval vm_compute in (prog TemplateRegistryMatcher) in
      change (prog TemplateRegistryMatcher) with p.
      change (text "github.com/" ++ ?x) with
        (ascii_rune "g" :: ascii_rune "i" :: ascii_rune "t" :: ascii_rune "h"
         :: ascii_rune "u" :: ascii_rune "b" :: ascii_rune "." :: ascii_rune "c"
         :: ascii_rune "o" :: ascii_rune "m" :: ascii_rune "/" :: x).
      rewrite !exec_char. rewrite exec_any by done. rewrite !exec_char.
      apply group_pick; [done| |no_longer_match "/"%char].
      rewrite exec_char.
      apply group_pick; [done| |no_longer_match "/"%char].
      rewrite exec_char.
      apply group_pick; [done| |no_longer_match "/"%char].
      rewrite exec_char.
      apply group_pick; [done| |no_longer_match ":"%char].
      rewrite exec_char.
      apply group_pick; [done| |by intros [|??] ??? [=]].
      apply exec_end. }
  rewrite take_ge by (cbn [length]; lia).
  cbn [fmap option_fmap option_map rev app list_fmap].
  by rewrite !to_string_of_string.
Qed.

Lemma package_groups_of_well_formed (owner repo type : string) :
  Forall (λ part, nl ∉ gostring.bytes part) [owner; repo; type] →
  Forall (λ part, "/"%char ∉ gostring.bytes part) [repo; type] →
  let t := "github.com/" +:+ owner +:+ "/" +:+ repo +:+ "/" +:+ type in
  FindStringSubmatch PackageRegistryMatcher t = Some [t; owner; repo; type].
Proof.
  intros Hnl Hslash t.
  apply Forall_cons in Hnl as [No Hnl]. apply Forall_cons in Hnl as [Nr Hnl].
  apply Forall_cons in Hnl as [Nt _].
  apply Forall_cons in Hslash as [Sr Hslash].
  apply Forall_cons in Hslash as [St _].
  apply newline_free_runes in No, Nr, Nt.
  apply occurs_absent in Sr, St.
  unfold FindStringSubmatch.
  assert (of_string t
          = text "github.com/" ++ of_string owner
            ++ ascii_rune "/" :: of_string repo
            ++ ascii_rune "/" :: (of_string type ++ [])) as Ht.
  { unfold t, of_string. rewrite !bytes_app.
    rewrite runes_ascii_text by ascii_text.
    rewrite (runes_app_text _ (gostring.bytes "/")) by (done || ascii_text).
    rewrite (runes_app_text _ (gostring.bytes "/")) by (done || ascii_text).
    by rewrite app_nil_r. }
  fold (of_string owner) (of_string repo) (of_string type) in *.
  clearbody t. erewrite find_here.
  2:{ rewrite Ht at 1.
      let p := eval vm_compute in (prog PackageRegistryMatcher) in
      change (prog PackageRegistryMatcher) with p.
      change (text "github.com/" ++ ?x) with
        (ascii_rune "g" :: ascii_rune "i" :: ascii_rune "t" :: ascii_rune "h"
         :: ascii_rune "u" :: ascii_rune "b" :: ascii_rune "." :: ascii_rune "c"
         :: ascii_rune "o" :: ascii_rune "m" :: ascii_rune "/" :: x).
      rewrite !exec_char. rewrite exec_any by done. rewrite !exec_char.
      apply group_pick; [done| |no_longer_match "/"%char].
      rewrite exec_char.
      apply group_pick; [done| |no_longer_match "/"%char].
      rewrite exec_char.
      apply group_pick; [done| |by intros [|??] ??? [=]].
      apply exec_end. }
  rewrite take_ge by (cbn [length]; lia).
  cbn [fmap option_fmap option_map rev app list_fmap].
  by rewrite !to_string_of_string.
Qed.

End well_formed_short_types.

(** X3: on [github.com/owner/repo/qualifier/type:version] whose parts
    hold no newline, with no [/] in [repo], [qualifier], [type] and
    [version] and no [:] in [version], [FindStringSubmatch] with the
    template matcher returns the whole string and the five parts. *)
Theorem X3_template_groups_of_well_formed (owner repo qualifier type version : string) :
  Forall (λ part, nl ∉ gostring.bytes part) [owner; repo; qualifier; type; version] →
  Forall (λ part, "/"%char ∉ gostring.bytes part) [repo; qualifier; type; version] →
  ":"%char ∉ gostring.bytes version →
  let t := "github.com/" +:+ owner +:+ "/" +:+ repo +:+ "/" +:+ qualifier
           +:+ "/" +:+ type +:+ ":" +:+ version in
  regexp.FindStringSubmatch TemplateRegistryMatcher t
  = Some [t; owner; repo; qualifier; type; version].
Proof. apply template_groups_of_well_formed. Qed.

(** X4: on [github.com/owner/repo/type] whose parts hold no newline,
    with no [/] in [repo] and [type], [FindStringSubmatch] with the
    package matcher returns the whole string and the three parts. *)
Theorem X4_package_groups_of_well_formed (owner repo type : string) :
  Forall (λ part, nl ∉ gostring.bytes part) [owner; repo; type] →
  Forall (λ part, "/"%char ∉ gostring.bytes part) [repo; type] →
  let t := "github.com/" +:+ owner +:+ "/" +:+ repo +:+ "/" +:+ type in
  regexp.FindStringSubmatch PackageRegistryMatcher t = Some [t; owner; repo; type].
Proof. apply package_groups_of_well_formed. Qed.

Lemma X3_witness :
  regexp.FindStringSubmatch TemplateRegistryMatcher
    "github.com/kubernetes/application-dm-templates/storage/redis:v1"
  = Some ["github.com/kubernetes/application-dm-templates/storage/redis:v1";
          "kubernetes"; "application-dm-templates"; "storage"; "redis"; "v1"].
Proof.
  apply (X3_template_groups_of_well_formed
           "kubernetes" "application-dm-templates" "storage" "redis" "v1").
  - repeat apply List.Forall_cons; try apply List.Forall_nil; decide_by_compute.
  - repeat apply List.Forall_cons; try apply List.Forall_nil; decide_by_compute.
  - decide_by_compute.
Defined.

Lemma X4_witness :
  regexp.FindStringSubmatch PackageRegistryMatcher "github.com/helm/charts/cassandra"
  = Some ["github.com/helm/charts/cassandra"; "helm"; "charts"; "cassandra"].
Proof.
  apply (X4_package_groups_of_well_formed "helm" "charts" "cassandra").
  - repeat apply List.Forall_cons; try apply List.Forall_nil; decide_by_compute.
  - repeat apply List.Forall_cons; try apply List.Forall_nil; decide_by_compute.
Defined.

(** ** The package matcher *)

(** The package matcher on the runes of a string. *)
Lemma IsGithubShortPackageType_runes (s : string) :
  IsGithubShortPackageType s = true ↔
  ∃ pre c g1 g2 post,
    utf8.of_string s =
      pre ++ text "github" ++ [c] ++ text "com/" ++ g1 ++ text "/" ++ g2
          ++ text "/" ++ post
    ∧ c ≠ utf8.newline
    ∧ Forall (λ r, r ≠ utf8.newline) (g1 ++ g2).
Proof.
  unfold IsGithubShortPackageType. rewrite MatchString_matches.
  let p := eval vm_compute in (regexp.prog PackageRegistryMatcher) in
  change (regexp.prog PackageRegistryMatcher) with p.
  split.
  - intros (pre & s1 & rest & Hs & Hm). simpl in Hm. open_match.
    match goal with
    | H : utf8.of_string s = pre ++ _ :: _ :: _ :: _ :: _ :: _ :: ?c :: _ :: _ :: _ :: _
            :: ?g1 ++ _ :: ?g2 ++ _ :: ?g3 ++ ?rest |- _ =>
        exists pre, c, g1, g2, (g3 ++ rest)
    end.
    split; [|split]; [| done |].
    + exact Hs.
    + rewrite !Forall_app. done.
  - intros (pre & c & g1 & g2 & post & Hs & Hc & Hg).
    rewrite !Forall_app in Hg. destruct Hg as (H1 & H2).
    exists pre, (text "github" ++ [c] ++ text "com/" ++ g1 ++ text "/" ++ g2
                   ++ text "/" ++ post), post.
    split; [done|]. simpl.
    do 6 (eexists; split; [reflexivity|]).
    exists c. eexists. split; [reflexivity|]. split; [done|].
    do 4 (eexists; split; [reflexivity|]).
    exists g1. eexists. split; [reflexivity|]. split; [done|].
    eexists; split; [reflexivity|].
    exists g2. eexists. split; [reflexivity|]. split; [done|].
    eexists; split; [reflexivity|].
    exists [], post. done.
Qed.

(** X1: whatever the template matcher accepts the package matcher
    accepts too, so that only the order of the two tests in
    [GetDownloadURLs] sends a template short type down the template
    path. *)
Theorem X1_template_is_package (t : string) :
  IsGithubShortType t = true → IsGithubShortPackageType t = true.
Proof.
  rewrite IsGithubShortType_runes, IsGithubShortPackageType_runes.
  intros (pre & c & g1 & g2 & g3 & g4 & post & Hs & Hc & Hg).
  exists pre, c, g1, g2, (g3 ++ text "/" ++ g4 ++ text ":" ++ post).
  split; [done|]. split; [done|].
  rewrite !Forall_app in *. tauto.
Qed.

Lemma X1_witness :
  IsGithubShortPackageType
    "github.com/kubernetes/application-dm-templates/storage/redis:v1" = true.
Proof.
  apply X1_template_is_package. reflexivity.
Defined.

(** X2: [IsGithubShortPackageType s] is true exactly when [s] is
    [pre ++ "github" ++ c ++ "com/" ++ g1 ++ "/" ++ g2 ++ "/" ++ post] for
    some strings of which [c] is one character and neither [c] nor
    [g1] nor [g2] holds a newline; [pre] and [post] are any text. *)
Theorem X2_IsGithubShortPackageType_unanchored (s : string) :
  IsGithubShortPackageType s = true ↔
  ∃ pre c g1 g2 post : string,
    s = pre +:+ "github" +:+ c +:+ "com/" +:+ g1 +:+ "/" +:+ g2 +:+ "/" +:+ post
    ∧ one_rune c
    ∧ Forall (λ part, nl ∉ gostring.bytes part) [c; g1; g2].
Proof.
  rewrite IsGithubShortPackageType_runes. split.
  - intros (pre & c & g1 & g2 & post & Hs & Hc & Hg).
    rewrite !Forall_app in Hg. destruct Hg as (H1 & H2).
    assert (∀ g, g ⊆ utf8.of_string s → Forall (λ r, r ≠ utf8.newline) g →
                 nl ∉ gostring.bytes (utf8.to_string g)) as Hfree.
    { intros g Hsub Hg. unfold utf8.to_string. rewrite bytes_of_bytes.
      by eapply runes_free_of_newline. }
    exists (utf8.to_string pre), (utf8.to_string [c]), (utf8.to_string g1),
      (utf8.to_string g2), (utf8.to_string post).
    split; [|split].
    + rewrite <- (to_string_of_string s) at 1. rewrite Hs.
      by rewrite !to_string_app.
    + unfold one_rune, utf8.of_string, utf8.to_string. rewrite bytes_of_bytes. simpl.
      rewrite app_nil_r. eapply runes_elem with (s := gostring.bytes s).
      fold (utf8.of_string s). rewrite Hs. rewrite !elem_of_app.
      right. right. left. by apply list_elem_of_singleton.
    + repeat apply List.Forall_cons; try apply List.Forall_nil;
        (apply Hfree;
         [rewrite Hs; intros x Hx; rewrite !elem_of_app; tauto|]); [|done..].
      by repeat constructor.
  - intros (pre & c & g1 & g2 & post & -> & Hc & Hg).
    apply Forall_cons in Hg as [Hnc Hg].
    exists (utf8.of_string pre), (gostring.bytes c), (utf8.of_string g1),
      (utf8.of_string g2), (utf8.of_string post).
    split; [|split].
    + unfold utf8.of_string, one_rune, utf8.of_string in *. rewrite !bytes_app.
      rewrite (runes_app_text _ (gostring.bytes "github")) by (done || ascii_text).
      rewrite (runes_app_text _ (gostring.bytes "com/")) by (done || ascii_text).
      rewrite (runes_app_text _ (gostring.bytes "/")) by (done || ascii_text).
      rewrite (runes_app_text _ (gostring.bytes "/")) by (done || ascii_text).
      by rewrite Hc.
    + intros E. apply Hnc. rewrite E. by apply list_elem_of_singleton.
    + rewrite !Forall_app. rewrite !Forall_cons in Hg.
      destruct Hg as (? & ? & _).
      split; by apply newline_free_runes.
Qed.

(** X5: a string without [/] is of neither short form, and one without
    [:] is not of the template short form. *)
Theorem X5_short_forms_need_separators (s : string) :
  ("/"%char ∉ gostring.bytes s →
     IsGithubShortType s = false ∧ IsGithubShortPackageType s = false)
  ∧ (":"%char ∉ gostring.bytes s → IsGithubShortType s = false).
Proof.
  assert (∀ re c, 0 < demands c (regexp.prog re) → c ∉ gostring.bytes s →
                  regexp.MatchString re s = false) as Hno.
  { intros re c Hd Hc. apply occurs_absent in Hc.
    destruct (regexp.MatchString re s) eqn:E; [|done].
    apply MatchString_matches in E as (pre & s1 & rest & Hs & Hm).
    apply (matches_demands c) in Hm. rewrite Hs, occurs_app in Hc. lia. }
  split; [intros Hc; split|intros Hc]; (eapply Hno; [|done]); vm_compute; lia.
Qed.

Lemma X5_witness :
  IsGithubShortType "string" = false ∧ IsGithubShortPackageType "string" = false.
Proof.
  apply (proj1 (X5_short_forms_need_separators "string")). decide_by_compute.
Defined.

(** ** Format strings *)

Lemma Split_nonempty (s : string) (sep : ascii) : gostring.Split s sep ≠ [].
Proof.
  destruct s as [|c s]; [done|]. simpl.
  destruct (Ascii.eqb c sep); [done|]. by destruct (gostring.Split s sep).
Qed.

Lemma Split_cons (c : ascii) (s : string) (sep : ascii) :
  gostring.Split (String c s) sep
  = if Ascii.eqb c sep then EmptyString :: gostring.Split s sep
    else match gostring.Split s sep with
         | w :: ws => String c w :: ws
         | [] => [String c EmptyString]
         end.
Proof. reflexivity. Qed.

(** Splitting at a separator that joins two strings splits both. *)
Lemma Split_app (a b : string) (sep : ascii) :
  gostring.Split (a +:+ String sep b) sep
  = gostring.Split a sep ++ gostring.Split b sep.
Proof.
  induction a as [|c a IH].
  - change (EmptyString +:+ String sep b) with (String sep b).
    rewrite Split_cons, Ascii.eqb_refl. done.
  - change (String c a +:+ String sep b) with (String c (a +:+ String sep b)).
    rewrite !Split_cons, IH. destruct (Ascii.eqb c sep); [done|].
    pose proof (Split_nonempty a sep).
    by destruct (gostring.Split a sep).
Qed.

Lemma Split_no_sep (s : string) (sep : ascii) :
  sep ∉ gostring.bytes s → gostring.Split s sep = [s].
Proof.
  induction s as [|c s IH]; [done|]. intros Hsep. rewrite Split_cons.
  destruct (Ascii.eqb_spec c sep) as [->|Hne].
  - destruct Hsep. apply elem_of_cons. by left.
  - rewrite IH; [done|]. intros Hin. apply Hsep. apply elem_of_cons. by right.
Qed.

Lemma Split_pieces (s : string) (sep : ascii) (k : string) :
  k ∈ gostring.Split s sep → sep ∉ gostring.bytes k.
Proof.
  revert k. induction s as [|c s IH]; intros k.
  - intros ->%list_elem_of_singleton. apply not_elem_of_nil.
  - rewrite Split_cons. destruct (Ascii.eqb_spec c sep) as [->|Hne].
    + intros [->|Hin]%elem_of_cons; [apply not_elem_of_nil|by apply IH].
    + pose proof (Split_nonempty s sep).
      destruct (gostring.Split s sep) as [|w ws] eqn:E; [done|].
      intros [->|Hin]%elem_of_cons.
      * intros [?|Hin]%elem_of_cons; [done|].
        apply (IH w); [apply elem_of_cons; by left|done].
      * apply IH. apply elem_of_cons. by right.
Qed.

Lemma ParseRegistryFormat_ext (rf1 rf2 : string) :
  (∀ k, k ∈ gostring.Split rf1 ";"%char ↔ k ∈ gostring.Split rf2 ";"%char) →
  ParseRegistryFormat rf1 = ParseRegistryFormat rf2.
Proof.
  intros H. apply map_eq. intros k. rewrite !ParseRegistryFormat_lookup.
  destruct (decide (k ∈ gostring.Split rf1 ";"%char)) as [H1|H1];
    destruct (decide (k ∈ gostring.Split rf2 ";"%char)) as [H2|H2];
    try done; by apply H in H1 || by apply H in H2.
Qed.

(** X6: the order of tags in a format string is irrelevant and a
    format repeated collapses: [a;b] parses as [b;a] does, and [a;a] as
    [a]. *)
Theorem X6_ParseRegistryFormat_is_a_set (a b : string) :
  ParseRegistryFormat (a +:+ ";" +:+ b) = ParseRegistryFormat (b +:+ ";" +:+ a)
  ∧ ParseRegistryFormat (a +:+ ";" +:+ a) = ParseRegistryFormat a.
Proof.
  split; apply ParseRegistryFormat_ext; intros k;
    change (";" +:+ ?x) with (String ";"%char x);
    rewrite !Split_app, !elem_of_app; tauto.
Qed.

(** X7: the map [ParseRegistryFormat] returns is never empty, holds
    [true] at every key and has no key with a [;]. A format without [;]
    (the empty format too) parses to the one tag that is the whole
    string. *)
Theorem X7_ParseRegistryFormat_keys (rf : string) :
  ParseRegistryFormat rf ≠ ∅
  ∧ (∀ k v, ParseRegistryFormat rf !! k = Some v →
            v = true ∧ ";"%char ∉ gostring.bytes k)
  ∧ (";"%char ∉ gostring.bytes rf → ParseRegistryFormat rf = {[ rf := true ]}).
Proof.
  split; [|split].
  - pose proof (Split_nonempty rf ";"%char) as Hne.
    destruct (gostring.Split rf ";"%char) as [|k l] eqn:E; [done|].
    intros Hempty. assert (ParseRegistryFormat rf !! k = None) as Hk.
    { by rewrite Hempty, lookup_empty. }
    rewrite ParseRegistryFormat_lookup, E in Hk.
    rewrite decide_True in Hk; [done|]. apply elem_of_cons. by left.
  - intros k v. rewrite ParseRegistryFormat_lookup.
    destruct (decide _) as [Hin|]; [|done]. intros [= <-].
    split; [done|]. by eapply Split_pieces.
  - intros Hsep. unfold ParseRegistryFormat. by rewrite Split_no_sep.
Qed.

Lemma X7_witness : ParseRegistryFormat "" = {[ "" := true ]}.
Proof.
  apply (proj2 (proj2 (X7_ParseRegistryFormat_keys ""))). decide_by_compute.
Defined.

(** X8: for records that agree on name, type and URL and whose formats
    have the same tags, [GetGithubRegistry] does the same, except that
    the unknown-format error names the format string as it was given. *)
Theorem X8_GetGithubRegistry_by_tag_set {W R : Type} `{!ProviderDeps W R}
    (cr1 cr2 : common.Registry) (w : W) :
  common.Name cr1 = common.Name cr2 →
  common.Type_ cr1 = common.Type_ cr2 →
  common.URL cr1 = common.URL cr2 →
  tags (common.Format cr1) = tags (common.Format cr2) →
  GetGithubRegistry cr1 w = GetGithubRegistry cr2 w
  ∨ (GetGithubRegistry cr1 w
       = ((None, Some ("unknown registry format: " +:+ common.Format cr1)), w)
     ∧ GetGithubRegistry cr2 w
       = ((None, Some ("unknown registry format: " +:+ common.Format cr2)), w)).
Proof.
  intros Hn Ht Hu Htags.
  assert (∀ k, index (ParseRegistryFormat (common.Format cr1)) k
               = index (ParseRegistryFormat (common.Format cr2)) k) as Hidx.
  { intros k.
    destruct (index (ParseRegistryFormat (common.Format cr2)) k) eqn:E.
    - apply index_tags. rewrite Htags. by apply index_tags.
    - apply index_tags_false. rewrite Htags. by apply index_tags_false. }
  unfold GetGithubRegistry. rewrite !Hidx, Hn, Ht, Hu.
  destruct (decide _); [|by left].
  destruct (_ && _); [by left|]. destruct (_ && _); [by left|]. by right.
Qed.

Lemma X8_witness :
  let cr1 := common.mkRegistry "t" "github" "github.com/k/t" "versioned;collection" in
  let cr2 := common.mkRegistry "t" "github" "github.com/k/t" "collection;versioned" in
  GetGithubRegistry (ProviderDeps0 := double.deps) cr1 0
    = GetGithubRegistry (ProviderDeps0 := double.deps) cr2 0
  ∨ (GetGithubRegistry (ProviderDeps0 := double.deps) cr1 0
       = ((None, Some ("unknown registry format: " +:+ common.Format cr1)), 0)
     ∧ GetGithubRegistry (ProviderDeps0 := double.deps) cr2 0
       = ((None, Some ("unknown registry format: " +:+ common.Format cr2)), 0)).
Proof.
  intros cr1 cr2.
  apply (X8_GetGithubRegistry_by_tag_set (ProviderDeps0 := double.deps) cr1 cr2 0);
    reflexivity.
Defined.

(** ** The cache over a run of lookups *)

Section provider_properties.
Context {W R : Type} `{!ProviderDeps W R}.
Implicit Types (rp : registryProvider W R) (st : State W R).

(** What either lookup does to the map. *)
Lemma lookup_changes rp (enum : list (string * R)) (key : string) st
    (out : Outcome (GoRes R)) st' :
  GetRegistryByName rp key st = (out, st')
  ∨ GetRegistryByShortURL rp enum key st = (out, st') →
  registries st' = registries st
  ∨ ∃ r, out = Return (Some r, None)
         ∧ registries st' = <[GetRegistryName r := r]> (registries st).
Proof.
  intros [H|H].
  - apply GetRegistryByName_cases in H
      as [(r & _ & -> & ->)|(_ & _ & [[? ?]|(r & -> & ?)])]; eauto.
  - apply GetRegistryByShortURL_cases in H
      as [(r & _ & -> & ->)|(_ & _ & [[? ?]|(r & -> & ?)])]; eauto.
Qed.

(** X9: the lookups keep every cached registry filed under the name it
    reports, whatever they return; the empty map of a new provider is
    so filed. *)
Theorem X9_keyed_by_name_kept rp (enum : list (string * R)) (key : string) st
    (out : Outcome (GoRes R)) st' :
  keyed_by_name st →
  GetRegistryByName rp key st = (out, st')
  ∨ GetRegistryByShortURL rp enum key st = (out, st') →
  keyed_by_name st'.
Proof.
  unfold keyed_by_name. intros Hinv H.
  apply lookup_changes in H as [->|(r & _ & ->)]; [done|].
  intros k r'. destruct (decide (GetRegistryName r = k)) as [<-|Hne].
  - rewrite lookup_insert_eq. by intros [= <-].
  - rewrite lookup_insert_ne by done. apply Hinv.
Qed.

(** X10: the lookups never remove a name from the cache, and one lookup
    adds at most one. *)
Theorem X10_cache_only_grows rp (enum : list (string * R)) (key : string) st
    (out : Outcome (GoRes R)) st' :
  GetRegistryByName rp key st = (out, st')
  ∨ GetRegistryByShortURL rp enum key st = (out, st') →
  dom (registries st) ⊆ dom (registries st')
  ∧ size (registries st') ≤ size (registries st) + 1.
Proof.
  intros H. apply lookup_changes in H as [->|(r & _ & ->)].
  - split; [done|lia].
  - split; [apply dom_insert_subseteq|]. rewrite map_size_insert.
    destruct (registries st !! GetRegistryName r); simpl; lia.
Qed.

(** X11: a registry that a lookup returned without error can be looked
    up next by the name it reports, and that lookup returns the very
    same instance from the cache, with no call to the service. *)
Theorem X11_returned_registry_is_cached rp (enum : list (string * R))
    (key : string) st (g : R) st1 :
  keyed_by_name st → enumerates enum st →
  GetRegistryByName rp key st = (Return (Some g, None), st1)
  ∨ GetRegistryByShortURL rp enum key st = (Return (Some g, None), st1) →
  GetRegistryByName rp (GetRegistryName g) st1 = (Return (Some g, None), st1).
Proof.
  intros Hinv Henum H.
  assert (registries st1 !! GetRegistryName g = Some g) as Hhit.
  { destruct H as [H|H].
    - apply GetRegistryByName_cases in H
        as [(r & Hr & [= <-] & ->)|(_ & _ & [[_ Hno]|(r & [= <-] & ->)])].
      + by rewrite (Hinv _ _ Hr).
      + by destruct (Hno g).
      + apply lookup_insert_eq.
    - apply GetRegistryByShortURL_cases in H
        as [(r & Hr & [= <-] & ->)|(_ & _ & [[_ Hno]|(r & [= <-] & ->)])].
      + apply findRegistryByShortURL_Some in Hr as (k & Hin & _).
        apply (enumerates_elem _ _ _ _ Henum) in Hin. by rewrite (Hinv _ _ Hin).
      + by destruct (Hno g).
      + apply lookup_insert_eq. }
  unfold GetRegistryByName, bind, gets, ret. by rewrite Hhit.
Qed.

(** X12: [GetRegistryByName] changes nothing at all when the name is
    cached, and otherwise calls [Get] of the service exactly once, for
    that name, whatever comes of it; it never calls [GetByURL]. *)
Theorem X12_GetRegistryByName_service_calls rp (key : string) st
    (out : Outcome (GoRes R)) st' :
  GetRegistryByName rp key st = (out, st') →
  match registries st !! key with
  | Some r => out = Return (Some r, None) ∧ st' = st
  | None => calls st' = calls st ++ [CallGet key]
  end.
Proof.
  intros H. apply GetRegistryByName_cases in H
    as [(r & -> & -> & ->)|(-> & Hcalls & _)]; done.
Qed.

(** X13: whether [GetRegistryByShortURL] is answered from the cache does
    not depend on the order in which the map is ranged over: it is,
    unchanged, exactly when some cached registry's stripped short URL
    prefixes the stripped URL; otherwise [GetByURL] of the service is
    called exactly once, with the URL as it was given. *)
Theorem X13_short_url_hit_or_miss rp (enum : list (string * R)) (URL : string) st
    (out : Outcome (GoRes R)) st' :
  enumerates enum st →
  GetRegistryByShortURL rp enum URL st = (out, st') →
  ((∃ r, cached st r ∧ serves r (TrimURLScheme URL) = true) →
     st' = st ∧ ∃ r, out = Return (Some r, None) ∧ cached st r
                     ∧ serves r (TrimURLScheme URL) = true)
  ∧ ((∀ r, cached st r → serves r (TrimURLScheme URL) = false) →
     calls st' = calls st ++ [CallGetByURL URL]).
Proof.
  intros Henum H. apply GetRegistryByShortURL_cases in H
    as [(r & Hr & -> & ->)|(Hnone & Hcalls & _)].
  - apply findRegistryByShortURL_Some in Hr as (k & Hin & Hs).
    apply (enumerates_elem _ _ _ _ Henum) in Hin.
    assert (cached st r) as Hc by (by exists k).
    split.
    + intros _. split; [done|]. eauto.
    + intros Hall. rewrite (Hall r Hc) in Hs. done.
  - split; [|done]. intros (r & [k Hk] & Hs).
    apply (enumerates_elem _ _ _ _ Henum) in Hk.
    rewrite (findRegistryByShortURL_None _ _ Hnone _ _ Hk) in Hs. done.
Qed.

(** X14: [GetRegistryByName] panics exactly when the name is not cached
    and the service returns a nil record with a nil error, or the
    factory a nil registry with a nil error; the panic is a nil
    dereference. *)
Theorem X14_GetRegistryByName_panics rp (key : string) st :
  (∀ p, (GetRegistryByName rp key st).1 = Panic p → p = NilDereference)
  ∧ ((GetRegistryByName rp key st).1 = Panic NilDereference ↔
     registries st !! key = None
     ∧ ∃ w1, common.Get (rs rp) key (world st) = ((None, None), w1)
             ∨ ∃ cr w2, common.Get (rs rp) key (world st) = ((Some cr, None), w1)
                        ∧ GithubRegistryProvider.GetGithubRegistry (grp rp) cr w1
                          = ((None, None), w2)).
Proof.
  unfold GetRegistryByName, bind, gets, ret, called, outside, store, deref,
    modify, panic. simpl.
  destruct (registries st !! key) as [r|] eqn:Hhit; simpl.
  { split; [done|]. split; [done|]. by intros [? _]. }
  destruct (common.Get (rs rp) key (world st)) as [[cr [e|]] w1]; simpl.
  { split; [done|]. split; [done|].
    intros (_ & w & [[=]|(? & ? & [=] & _)]). }
  destruct cr as [cr|]; simpl.
  2:{ split; [by intros p [= <-]|]. split; [|done]. intros _. split; [done|].
      exists w1. by left. }
  destruct (GithubRegistryProvider.GetGithubRegistry (grp rp) cr w1)
    as [[r [e|]] w2] eqn:Hf; simpl.
  { split; [done|]. split; [done|].
    intros (_ & w & [[=]|(cr' & w2' & [= <- <-] & Hf')]).
    rewrite Hf in Hf'. done. }
  destruct r as [r|]; simpl.
  - split; [done|]. split; [done|].
    intros (_ & w & [[=]|(cr' & w2' & [= <- <-] & Hf')]).
    rewrite Hf in Hf'. done.
  - split; [by intros p [= <-]|]. split; [|done]. intros _. split; [done|].
    exists w1. right. eauto.
Qed.

(** X15: a provider made by [NewRegistryProvider] without a factory is
    its own factory: on a name that is not cached, a record of another
    type than Github gives the unknown-type error and leaves the map as
    it was, and a Github record with the tags [unversioned] and
    [one-level] is built by the package constructor and cached under
    the name the new registry reports. *)
Theorem X15_provider_is_its_own_factory (service : option (common.RegistryService W))
    (key : string) st (cr : common.Registry) (w1 : W) :
  let rp := NewRegistryProvider service None in
  registries st !! key = None →
  common.Get (rs rp) key (world st) = ((Some cr, None), w1) →
  (common.Type_ cr ≠ GithubRegistryType →
     GetRegistryByName rp key st
     = (Return (None, Some ("unknown registry type: " +:+ common.Type_ cr)),
        mkState w1 (registries st) (calls st ++ [CallGet key])))
  ∧ (∀ r w2,
       common.Type_ cr = GithubRegistryType →
       UnversionedRegistry ∈ tags (common.Format cr) →
       OneLevelRegistry ∈ tags (common.Format cr) →
       NewGithubPackageRegistry (common.Name cr) (common.URL cr) w1
         = ((Some r, None), w2) →
       GetRegistryByName rp key st
       = (Return (Some r, None),
          mkState w2 (<[GetRegistryName r := r]> (registries st))
                  (calls st ++ [CallGet key]))).
Proof.
  intros rp Hmiss Hget. subst rp. simpl in Hget.
  unfold GetRegistryByName, bind, gets, ret, called, outside, store, deref,
    modify, panic. simpl. rewrite Hmiss. simpl. rewrite Hget. simpl.
  unfold GetGithubRegistry. split.
  - intros Hty. by rewrite decide_False by done.
  - intros r w2 Hty Hu Ho Hnew. rewrite decide_True by done.
    apply index_tags in Hu, Ho. rewrite Hu, Ho. simpl. by rewrite Hnew.
Qed.

End provider_properties.

Lemma init_keyed_by_name {W R : Type} `{!ProviderDeps W R} (w : W) :
  keyed_by_name (init (R := R) w).
Proof. intros k r. unfold init. simpl. by rewrite lookup_empty. Qed.

Lemma X9_witness :
  keyed_by_name (ProviderDeps0 := double.deps)
    (GetRegistryByName (ProviderDeps0 := double.deps)
       double.charts_provider "helm-charts" (init 0)).2.
Proof.
  eapply (X9_keyed_by_name_kept (ProviderDeps0 := double.deps)
            double.charts_provider [] "helm-charts" (init 0)).
  - apply init_keyed_by_name.
  - left. apply surjective_pairing.
Defined.

Lemma X10_witness :
  let st' := (GetRegistryByName (ProviderDeps0 := double.deps)
                double.charts_provider "helm-charts" (init 0)).2 in
  dom (registries (init (R := double.live) 0)) ⊆ dom (registries st')
  ∧ size (registries st') ≤ size (registries (init (R := double.live) 0)) + 1.
Proof.
  intros st'.
  eapply (X10_cache_only_grows (ProviderDeps0 := double.deps)
            double.charts_provider [] "helm-charts" (init 0)).
  left. apply surjective_pairing.
Defined.

Lemma X11_witness :
  let g := double.mkLive 0 "helm-charts" "github.com/helm/charts" false in
  let st1 := mkState 1 {[ "helm-charts" := g ]} [CallGetByURL "github.com/helm/charts/cassandra"] in
  GetRegistryByName (ProviderDeps0 := double.deps) double.charts_provider
    (GetRegistryName (ProviderDeps := double.deps) g) st1
  = (Return (Some g, None), st1).
Proof.
  intros g st1.
  apply (X11_returned_registry_is_cached (ProviderDeps0 := double.deps)
           double.charts_provider [] "github.com/helm/charts/cassandra" (init 0) g st1).
  - apply init_keyed_by_name.
  - enumerates_by_compute.
  - right. reflexivity.
Defined.

Lemma X12_witness :
  let run := GetRegistryByName (ProviderDeps0 := double.deps)
               double.charts_provider "helm-charts" (init 0) in
  calls run.2 = calls (init (R := double.live) 0) ++ [CallGet "helm-charts"].
Proof.
  intros run.
  exact (X12_GetRegistryByName_service_calls (ProviderDeps0 := double.deps)
           double.charts_provider "helm-charts" (init 0) run.1 run.2
           (surjective_pairing run)).
Defined.

Lemma X13_witness :
  let enum := [("acme-charts", double.acme_charts)] in
  let run := GetRegistryByShortURL (ProviderDeps0 := double.deps)
               (double.provider []) enum "http://github.com/acme/charts/redis"
               double.one_cached in
  run.2 = double.one_cached
  ∧ ∃ r, run.1 = Return (Some r, None) ∧ cached double.one_cached r
         ∧ serves (ProviderDeps0 := double.deps) r
             (TrimURLScheme (ProviderDeps := double.deps)
                "http://github.com/acme/charts/redis") = true.
Proof.
  intros enum run.
  apply (proj1 (X13_short_url_hit_or_miss (ProviderDeps0 := double.deps)
                  (double.provider []) enum "http://github.com/acme/charts/redis"
                  double.one_cached run.1 run.2
                  ltac:(enumerates_by_compute) (surjective_pairing run))).
  exists double.acme_charts. split; [by exists "acme-charts"|reflexivity].
Defined.

Lemma X14_witness :
  (GetRegistryByName (ProviderDeps0 := double.deps)
     (NewRegistryProvider (ProviderDeps0 := double.deps) (Some double.silent) None)
     "charts" (init 0)).1
  = Panic NilDereference.
Proof.
  apply (proj2 (X14_GetRegistryByName_panics (ProviderDeps0 := double.deps)
                  (NewRegistryProvider (ProviderDeps0 := double.deps)
                     (Some double.silent) None) "charts" (init 0))).
  split; [reflexivity|]. exists 0. by left.
Defined.

Lemma X15_witness :
  let cr := common.mkRegistry "gcs-charts" "gcs" "gs://charts" "unversioned;one-level" in
  let rp := NewRegistryProvider (ProviderDeps0 := double.deps)
              (Some (double.service [("gcs-charts", cr)])) None in
  GetRegistryByName (ProviderDeps0 := double.deps) rp "gcs-charts" (init 0)
  = (Return (None, Some ("unknown registry type: " +:+ common.Type_ cr)),
     mkState 0 (registries (init 0)) (calls (init (R := double.live) 0)
                                      ++ [CallGet "gcs-charts"])).
Proof.
  intros cr rp.
  apply (proj1 (X15_provider_is_its_own_factory (ProviderDeps0 := double.deps)
                  (Some (double.service [("gcs-charts", cr)])) "gcs-charts"
                  (init 0) cr 0 eq_refl eq_refl)).
  discriminate.
Defined.

(** ** The resolver on every input *)

Lemma MatchString_of_FindStringSubmatch re s l :
  regexp.FindStringSubmatch re s = Some l → regexp.MatchString re s = true.
Proof.
  intros H. destruct (regexp.MatchString re s) eqn:E; [done|].
  apply FindStringSubmatch_no_match in E. congruence.
Qed.

Section resolver_properties.
Context {Σ R T U : Type} `{!ResolverDeps Σ R T U}.
Implicit Types (rp : RegistryProvider.t Σ R) (run : Run Σ R T).

Ltac step_go :=
  unfold bind, ret, note, inner, effect, deref, modify, panic; simpl.

(** X16: a string that the package matcher accepts and the template
    matcher does not takes the package path, also when it is an HTTP
    URL: the provider is asked for the whole string, the [Type] is made
    from the third group alone, with empty qualifier and version, and
    when the registry answers the result is its URLs as strings. *)
Theorem X16_package_path rp (t : string) run :
  IsGithubShortType t = false →
  IsGithubShortPackageType t = true →
  ∃ m0 owner repo name,
    regexp.FindStringSubmatch PackageRegistryMatcher t = Some [m0; owner; repo; name]
    ∧ ∀ r σ1 ty urls σ2,
        RegistryProvider.GetRegistryByShortURL rp t (sys run)
          = (Return (Some r, None), σ1) →
        NewType "" name "" = (ty, None) →
        Registry_GetDownloadURLs r ty σ1 = ((urls, None), σ2) →
        GetDownloadURLs rp t run
        = (Return (ConvertURLsToStrings urls, None),
           mkRun σ2 (trace run
                     ++ [Consulted TemplateRegistryMatcher t;
                         Consulted PackageRegistryMatcher t;
                         Consulted PackageRegistryMatcher t;
                         Lookup t; Download r ty])).
Proof.
  intros Ht Hp. destruct (package_groups t Hp) as (m0 & owner & repo & name & Hfind).
  exists m0, owner, repo, name. split; [done|].
  intros r σ1 ty urls σ2 Hrp Hty Hurls.
  unfold GetDownloadURLs, ShortTypeToPackageDownloadURLs.
  step_go. rewrite Ht, Hp, Hfind. step_go. rewrite Hrp. simpl.
  rewrite Hty. simpl. rewrite Hurls. simpl. by rewrite <- !app_assoc.
Qed.

(** X17: whatever the string, [GetDownloadURLs] consults matchers on
    that string only, then asks the provider at most once, for that
    string, and a registry at most once and only after the provider. It
    asks only for a string of a short form; when it does not ask, the
    store is as it was. *)
Theorem X17_GetDownloadURLs_asks_once rp (t : string) run
    (out : Outcome (list string * option error)) run' :
  GetDownloadURLs rp t run = (out, run') →
  ∃ consults asked,
    trace run' = trace run ++ consults ++ asked
    ∧ Forall (λ e, ∃ re, e = Consulted re t) consults
    ∧ (asked = [] ∨ asked = [Lookup t] ∨ ∃ r ty, asked = [Lookup t; Download r ty])
    ∧ (asked = [] → sys run' = sys run)
    ∧ (asked ≠ [] → IsGithubShortType t = true ∨ IsGithubShortPackageType t = true).
Proof.
  assert (∀ l : list (Event R T),
            Forall (λ e, ∃ re, e = Consulted re t) (Consulted TemplateRegistryMatcher t :: l)
            ↔ Forall (λ e, ∃ re, e = Consulted re t) l) as HT.
  { intros l. rewrite Forall_cons. split; [tauto|eauto]. }
  assert (∀ l : list (Event R T),
            Forall (λ e, ∃ re, e = Consulted re t) (Consulted PackageRegistryMatcher t :: l)
            ↔ Forall (λ e, ∃ re, e = Consulted re t) l) as HP.
  { intros l. rewrite Forall_cons. split; [tauto|eauto]. }
  unfold GetDownloadURLs. step_go.
  destruct (IsGithubShortType t) eqn:Ht.
  - destruct (template_groups t Ht) as (m0 & ? & ? & m3 & m4 & m5 & Hfind).
    unfold ShortTypeToDownloadURLs. step_go. rewrite Hfind. step_go.
    rewrite <- !app_assoc. simpl.
    destruct (RegistryProvider.GetRegistryByShortURL rp t (sys run))
      as [[[[r|] [e|]]|p] σ1]; simpl;
      try (intros [= <- <-];
           exists [Consulted TemplateRegistryMatcher t;
                   Consulted TemplateRegistryMatcher t], [Lookup t];
           simpl; rewrite !HT; repeat split; eauto; done).
    destruct (NewType m3 m4 m5) as [ty [e|]]; simpl;
      try (intros [= <- <-];
           exists [Consulted TemplateRegistryMatcher t;
                   Consulted TemplateRegistryMatcher t], [Lookup t];
           simpl; rewrite !HT; repeat split; eauto; done).
    destruct (Registry_GetDownloadURLs r ty σ1) as [[urls [e|]] σ2]; simpl;
      intros [= <- <-];
      exists [Consulted TemplateRegistryMatcher t;
              Consulted TemplateRegistryMatcher t], [Lookup t; Download r ty];
      simpl; rewrite <- !app_assoc, !HT; repeat split; eauto; done.
  - simpl. destruct (IsGithubShortPackageType t) eqn:Hp.
    + destruct (package_groups t Hp) as (m0 & ? & ? & m3 & Hfind).
      unfold ShortTypeToPackageDownloadURLs. step_go. rewrite Hfind. step_go.
      rewrite <- !app_assoc. simpl.
      destruct (RegistryProvider.GetRegistryByShortURL rp t (sys run))
        as [[[r [e|]]|p] σ1]; simpl;
        try (intros [= <- <-];
             exists [Consulted TemplateRegistryMatcher t;
                     Consulted PackageRegistryMatcher t;
                     Consulted PackageRegistryMatcher t], [Lookup t];
             simpl; rewrite HT, !HP; repeat split; eauto; done).
      destruct (NewType "" m3 "") as [ty [e|]]; simpl;
        try (intros [= <- <-];
             exists [Consulted TemplateRegistryMatcher t;
                     Consulted PackageRegistryMatcher t;
                     Consulted PackageRegistryMatcher t], [Lookup t];
             simpl; rewrite HT, !HP; repeat split; eauto; done).
      destruct r as [r|]; simpl;
        try (intros [= <- <-];
             exists [Consulted TemplateRegistryMatcher t;
                     Consulted PackageRegistryMatcher t;
                     Consulted PackageRegistryMatcher t], [Lookup t];
             simpl; rewrite HT, !HP; repeat split; eauto; done).
      destruct (Registry_GetDownloadURLs r ty σ1) as [[urls [e|]] σ2]; simpl;
        intros [= <- <-];
        exists [Consulted TemplateRegistryMatcher t;
                Consulted PackageRegistryMatcher t;
                Consulted PackageRegistryMatcher t], [Lookup t; Download r ty];
        simpl; rewrite <- !app_assoc, HT, !HP; repeat split; eauto; done.
    + assert (∀ o σ,
                (o, mkRun (Σ := Σ) σ ((trace run ++ [Consulted TemplateRegistryMatcher t])
                             ++ [Consulted PackageRegistryMatcher t])) = (out, run') →
                σ = sys run →
                ∃ consults asked,
                  trace run' = trace run ++ consults ++ asked
                  ∧ Forall (λ e, ∃ re, e = Consulted re t) consults
                  ∧ (asked = [] ∨ asked = [Lookup t]
                     ∨ ∃ r ty, asked = [Lookup t; Download r ty])
                  ∧ (asked = [] → sys run' = sys run)
                  ∧ (asked ≠ [] → false = true ∨ false = true)) as Hdone.
      { intros o σ [= <- <-] ->.
        exists [Consulted TemplateRegistryMatcher t;
                Consulted PackageRegistryMatcher t], [].
        simpl. rewrite <- !app_assoc, HT, HP. repeat split; eauto; done. }
      destruct (IsHttpUrl t); simpl; [|intros H; by eapply Hdone].
      destruct (url_Parse t) as [[u|] [e|]]; simpl; intros H; by eapply Hdone.
Qed.

(** X18: an error from the provider is what [GetDownloadURLs] returns
    for a string of a short form; no registry is asked, even when the
    provider returned one beside the error. *)
Theorem X18_provider_error_is_returned rp (t : string) run
    (x : option R) (e : error) (σ1 : Σ) :
  IsGithubShortType t = true ∨ IsGithubShortPackageType t = true →
  RegistryProvider.GetRegistryByShortURL rp t (sys run)
    = (Return (x, Some e), σ1) →
  ∃ consults,
    GetDownloadURLs rp t run
    = (Return ([], Some e), mkRun σ1 (trace run ++ consults ++ [Lookup t]))
    ∧ Forall (λ ev, ∃ re, ev = Consulted re t) consults.
Proof.
  intros Hshort Hrp. unfold GetDownloadURLs. step_go.
  destruct (IsGithubShortType t) eqn:Ht.
  - destruct (template_groups t Ht) as (m0 & ? & ? & m3 & m4 & m5 & Hfind).
    unfold ShortTypeToDownloadURLs. step_go. rewrite Hfind. step_go.
    rewrite Hrp. simpl.
    exists [Consulted TemplateRegistryMatcher t; Consulted TemplateRegistryMatcher t].
    split; [by destruct x; rewrite <- !app_assoc|]. repeat constructor; eauto.
  - destruct Hshort as [?|Hp]; [done|]. simpl. rewrite Hp.
    destruct (package_groups t Hp) as (m0 & ? & ? & m3 & Hfind).
    unfold ShortTypeToPackageDownloadURLs. step_go. rewrite Hfind. step_go.
    rewrite Hrp. simpl.
    exists [Consulted TemplateRegistryMatcher t; Consulted PackageRegistryMatcher t;
            Consulted PackageRegistryMatcher t].
    split; [by rewrite <- !app_assoc|]. repeat constructor; eauto.
Qed.

(** X19: called on a string its matcher does not accept, each of the
    two conversions returns its parse error, which ends in the string,
    without asking the provider. *)
Theorem X19_conversions_reject_other_strings rp (t : string) run :
  (IsGithubShortType t = false →
     ShortTypeToDownloadURLs rp t run
     = (Return ([], Some ("cannot parse short github url: " +:+ t)),
        mkRun (sys run) (trace run ++ [Consulted TemplateRegistryMatcher t])))
  ∧ (IsGithubShortPackageType t = false →
     ShortTypeToPackageDownloadURLs rp t run
     = (Return ([], Some ("Failed to parse short github url: " +:+ t)),
        mkRun (sys run) (trace run ++ [Consulted PackageRegistryMatcher t]))).
Proof.
  split; intros H; apply FindStringSubmatch_no_match in H.
  - unfold ShortTypeToDownloadURLs. step_go. by rewrite H.
  - unfold ShortTypeToPackageDownloadURLs. step_go. by rewrite H.
Qed.

End resolver_properties.

(** ** Well-formed short types, end to end *)

Lemma MatchString_demands re (c : ascii) (s : string) :
  occurs c (utf8.of_string s) < demands c (regexp.prog re) →
  regexp.MatchString re s = false.
Proof.
  intros Hlt. destruct (regexp.MatchString re s) eqn:E; [|done].
  apply MatchString_matches in E as (pre & s1 & rest & Hs & Hm).
  apply (matches_demands c) in Hm. rewrite Hs, occurs_app in Hlt. lia.
Qed.

Lemma package_string_is_no_template (owner repo type : string) :
  Forall (λ part, "/"%char ∉ gostring.bytes part) [owner; repo; type] →
  IsGithubShortType ("github.com/" +:+ owner +:+ "/" +:+ repo +:+ "/" +:+ type)
  = false.
Proof.
  intros Hslash.
  apply Forall_cons in Hslash as [So Hslash].
  apply Forall_cons in Hslash as [Sr Hslash].
  apply Forall_cons in Hslash as [St _].
  apply occurs_absent in So, Sr, St.
  apply (MatchString_demands _ "/"%char).
  unfold utf8.of_string in *. rewrite !bytes_app.
  rewrite runes_ascii_text by ascii_text.
  rewrite (runes_app_text _ (gostring.bytes "/")) by (done || ascii_text).
  rewrite (runes_app_text _ (gostring.bytes "/")) by (done || ascii_text).
  rewrite !occurs_app, So, Sr, St. vm_compute. lia.
Qed.

Section end_to_end.
Context {Σ R T U : Type} `{!ResolverDeps Σ R T U}.
Implicit Types (rp : RegistryProvider.t Σ R) (run : Run Σ R T).

Ltac step_go :=
  unfold bind, ret, note, inner, effect, deref, modify, panic; simpl.

(** X20: for [github.com/owner/repo/qualifier/type:version] whose parts
    hold no newline, with no [/] in [repo], [qualifier], [type] and
    [version] and no [:] in [version], [GetDownloadURLs] makes the
    [Type] of exactly [qualifier], [type] and [version] and, when the
    provider returns a registry and the registry answers, returns its
    URLs as strings. *)
Theorem X20_well_formed_template_resolves rp
    (owner repo qualifier type version : string) run
    (r : R) (σ1 : Σ) (ty : T) (urls : list U) (σ2 : Σ) :
  Forall (λ part, nl ∉ gostring.bytes part) [owner; repo; qualifier; type; version] →
  Forall (λ part, "/"%char ∉ gostring.bytes part) [repo; qualifier; type; version] →
  ":"%char ∉ gostring.bytes version →
  let t := "github.com/" +:+ owner +:+ "/" +:+ repo +:+ "/" +:+ qualifier
           +:+ "/" +:+ type +:+ ":" +:+ version in
  RegistryProvider.GetRegistryByShortURL rp t (sys run)
    = (Return (Some r, None), σ1) →
  NewType qualifier type version = (ty, None) →
  Registry_GetDownloadURLs r ty σ1 = ((urls, None), σ2) →
  GetDownloadURLs rp t run
  = (Return (ConvertURLsToStrings urls, None),
     mkRun σ2 (trace run
               ++ [Consulted TemplateRegistryMatcher t;
                   Consulted TemplateRegistryMatcher t;
                   Lookup t; Download r ty])).
Proof.
  intros Hnl Hslash Hcolon t Hrp Hty Hurls.
  pose proof (template_groups_of_well_formed owner repo qualifier type version
                Hnl Hslash Hcolon) as Hfind.
  fold t in Hfind. clearbody t.
  pose proof (MatchString_of_FindStringSubmatch _ _ _ Hfind) as Hm.
  unfold GetDownloadURLs, ShortTypeToDownloadURLs. step_go.
  unfold IsGithubShortType. rewrite Hm, Hfind. step_go. rewrite Hrp. simpl.
  rewrite Hty. simpl. rewrite Hurls. simpl. by rewrite <- !app_assoc.
Qed.

(** X21: for [github.com/owner/repo/type] whose parts hold no newline
    and no [/], [GetDownloadURLs] takes the package path, makes the
    [Type] of [type] alone and, when the provider returns a registry
    and the registry answers, returns its URLs as strings. *)
Theorem X21_well_formed_package_resolves rp (owner repo type : string) run
    (r : R) (σ1 : Σ) (ty : T) (urls : list U) (σ2 : Σ) :
  Forall (λ part, nl ∉ gostring.bytes part) [owner; repo; type] →
  Forall (λ part, "/"%char ∉ gostring.bytes part) [owner; repo; type] →
  let t := "github.com/" +:+ owner +:+ "/" +:+ repo +:+ "/" +:+ type in
  RegistryProvider.GetRegistryByShortURL rp t (sys run)
    = (Return (Some r, None), σ1) →
  NewType "" type "" = (ty, None) →
  Registry_GetDownloadURLs r ty σ1 = ((urls, None), σ2) →
  GetDownloadURLs rp t run
  = (Return (ConvertURLsToStrings urls, None),
     mkRun σ2 (trace run
               ++ [Consulted TemplateRegistryMatcher t;
                   Consulted PackageRegistryMatcher t;
                   Consulted PackageRegistryMatcher t;
                   Lookup t; Download r ty])).
Proof.
  intros Hnl Hslash t Hrp Hty Hurls.
  pose proof (package_string_is_no_template owner repo type Hslash) as Hno.
  apply Forall_cons in Hslash as [_ Hslash].
  pose proof (package_groups_of_well_formed owner repo type Hnl Hslash) as Hfind.
  fold t in Hfind, Hno. clearbody t.
  pose proof (MatchString_of_FindStringSubmatch _ _ _ Hfind) as Hm.
  unfold GetDownloadURLs, ShortTypeToPackageDownloadURLs. step_go.
  unfold IsGithubShortPackageType. rewrite Hno, Hm, Hfind. step_go.
  rewrite Hrp. simpl. rewrite Hty. simpl. rewrite Hurls. simpl.
  by rewrite <- !app_assoc.
Qed.

End end_to_end.

Lemma X16_witness :
  let t := "https://github.com/helm/charts/cassandra" in
  ∃ m0 owner repo name,
    regexp.FindStringSubmatch PackageRegistryMatcher t = Some [m0; owner; repo; name]
    ∧ ∀ r σ1 ty urls σ2,
        RegistryProvider.GetRegistryByShortURL double.charts_rp t (sys double.fresh)
          = (Return (Some r, None), σ1) →
        NewType (ResolverDeps := double.resolver_deps) "" name "" = (ty, None) →
        Registry_GetDownloadURLs (ResolverDeps := double.resolver_deps) r ty σ1
          = ((urls, None), σ2) →
        GetDownloadURLs (ResolverDeps0 := double.resolver_deps)
          double.charts_rp t double.fresh
        = (Return (ConvertURLsToStrings (ResolverDeps := double.resolver_deps) urls,
                   None),
           mkRun σ2 (trace double.fresh
                     ++ [Consulted TemplateRegistryMatcher t;
                         Consulted PackageRegistryMatcher t;
                         Consulted PackageRegistryMatcher t;
                         Lookup t; Download r ty])).
Proof.
  intros t.
  apply (X16_package_path (ResolverDeps0 := double.resolver_deps)
           double.charts_rp t double.fresh); reflexivity.
Defined.

Lemma X17_witness :
  let t := "string" in
  let result := GetDownloadURLs (ResolverDeps0 := double.resolver_deps)
                  double.charts_rp t double.fresh in
  ∃ consults asked,
    trace result.2 = trace double.fresh ++ consults ++ asked
    ∧ Forall (λ e, ∃ re, e = Consulted re t) consults
    ∧ (asked = [] ∨ asked = [Lookup t] ∨ ∃ r ty, asked = [Lookup t; Download r ty])
    ∧ (asked = [] → sys result.2 = sys double.fresh)
    ∧ (asked ≠ [] → IsGithubShortType t = true ∨ IsGithubShortPackageType t = true).
Proof.
  intros t result.
  apply (X17_GetDownloadURLs_asks_once (ResolverDeps0 := double.resolver_deps)
           double.charts_rp t double.fresh result.1 result.2).
  apply surjective_pairing.
Defined.

Lemma X18_witness :
  let t := "github.com/kubernetes/application-dm-templates/storage/redis:v1" in
  ∃ consults,
    GetDownloadURLs (ResolverDeps0 := double.resolver_deps)
      double.empty_rp t double.fresh
    = (Return ([], Some ("registry not found: " +:+ t)),
       mkRun (mkState 0 ∅ [CallGetByURL t])
         (trace double.fresh ++ consults ++ [Lookup t]))
    ∧ Forall (λ ev, ∃ re, ev = Consulted re t) consults.
Proof.
  intros t.
  apply (X18_provider_error_is_returned (ResolverDeps0 := double.resolver_deps)
           double.empty_rp t double.fresh None).
  - left. reflexivity.
  - reflexivity.
Defined.

Lemma X19_witness :
  ShortTypeToDownloadURLs (ResolverDeps0 := double.resolver_deps)
    double.charts_rp "string" double.fresh
  = (Return ([], Some ("cannot parse short github url: " +:+ "string")),
     mkRun (sys double.fresh)
       (trace double.fresh ++ [Consulted TemplateRegistryMatcher "string"])).
Proof.
  apply (proj1 (X19_conversions_reject_other_strings
                  (ResolverDeps0 := double.resolver_deps)
                  double.charts_rp "string" double.fresh)).
  reflexivity.
Defined.

Lemma X20_witness :
  let t := "github.com/" +:+ "kubernetes" +:+ "/" +:+ "application-dm-templates"
           +:+ "/" +:+ "storage" +:+ "/" +:+ "redis" +:+ ":" +:+ "v1" in
  let r := double.mkLive 0 "application-dm-templates"
             "github.com/kubernetes/application-dm-templates" true in
  let σ := mkState 1 {[ "application-dm-templates" := r ]} [CallGetByURL t] in
  let ty := ("storage", "redis", "v1") in
  let urls := (Registry_GetDownloadURLs (ResolverDeps := double.resolver_deps)
                 r ty σ).1.1 in
  GetDownloadURLs (ResolverDeps0 := double.resolver_deps)
    double.templates_provider t double.fresh
  = (Return (ConvertURLsToStrings (ResolverDeps := double.resolver_deps) urls, None),
     mkRun σ (trace double.fresh
               ++ [Consulted TemplateRegistryMatcher t;
                   Consulted TemplateRegistryMatcher t;
                   Lookup t; Download r ty])).
Proof.
  intros t r σ ty urls.
  apply (X20_well_formed_template_resolves (ResolverDeps0 := double.resolver_deps)
           double.templates_provider
           "kubernetes" "application-dm-templates" "storage" "redis" "v1"
           double.fresh r σ ty urls σ).
  - repeat apply List.Forall_cons; try apply List.Forall_nil; decide_by_compute.
  - repeat apply List.Forall_cons; try apply List.Forall_nil; decide_by_compute.
  - decide_by_compute.
  - reflexivity.
  - reflexivity.
  - reflexivity.
Defined.

Lemma X21_witness :
  let t := "github.com/" +:+ "helm" +:+ "/" +:+ "charts" +:+ "/" +:+ "cassandra" in
  let r := double.mkLive 0 "helm-charts" "github.com/helm/charts" false in
  let σ := mkState 1 {[ "helm-charts" := r ]} [CallGetByURL t] in
  let ty := ("", "cassandra", "") in
  let urls := (Registry_GetDownloadURLs (ResolverDeps := double.resolver_deps)
                 r ty σ).1.1 in
  GetDownloadURLs (ResolverDeps0 := double.resolver_deps)
    double.charts_rp t double.fresh
  = (Return (ConvertURLsToStrings (ResolverDeps := double.resolver_deps) urls, None),
     mkRun σ (trace double.fresh
               ++ [Consulted TemplateRegistryMatcher t;
                   Consulted PackageRegistryMatcher t;
                   Consulted PackageRegistryMatcher t;
                   Lookup t; Download r ty])).
Proof.
  intros t r σ ty urls.
  apply (X21_well_formed_package_resolves (ResolverDeps0 := double.resolver_deps)
           double.charts_rp "helm" "charts" "cassandra"
           double.fresh r σ ty urls σ).
  - repeat apply List.Forall_cons; try apply List.Forall_nil; decide_by_compute.
  - repeat apply List.Forall_cons; try apply List.Forall_nil; decide_by_compute.
  - reflexivity.
  - reflexivity.
  - reflexivity.
Defined.

(** ** Lookups by short URL, one after another *)

Section short_url_properties.
Context {W R : Type} `{!ProviderDeps W R}.
Implicit Types (rp : registryProvider W R) (st : State W R).

(** X22: [findRegistryByShortURL] returns the first registry, in the
    order the map is ranged over, whose stripped short URL prefixes the
    stripped URL, and nil exactly when there is none. *)
Theorem X22_first_in_range_order (enum : list (string * R)) (URL : string) :
  (∀ r, findRegistryByShortURL enum URL = Some r ↔
        ∃ l1 k l2, enum = l1 ++ (k, r) :: l2
                   ∧ serves r (TrimURLScheme URL) = true
                   ∧ Forall (λ e, serves e.2 (TrimURLScheme URL) = false) l1)
  ∧ (findRegistryByShortURL enum URL = None ↔
     Forall (λ e, serves e.2 (TrimURLScheme URL) = false) enum).
Proof.
  induction enum as [|[k r'] enum [IHs IHn]].
  - split.
    + intros r. split; [done|]. by intros ([|??] & ? & ? & ? & _).
    + split; [constructor|done].
  - rewrite findRegistryByShortURL_cons.
    destruct (serves r' (TrimURLScheme URL)) eqn:E.
    + split.
      * intros r. split.
        -- intros [= <-]. exists [], k, enum. repeat split; [done|constructor].
        -- intros ([|[k0 r0] l1] & k1 & l2 & Heq & Hs & Hl1).
           ++ by injection Heq as _ <- _.
           ++ injection Heq as -> -> _. apply Forall_cons in Hl1 as [Hl1 _].
              simpl in Hl1. congruence.
      * split; [done|]. intros [Hr _]%Forall_cons. simpl in Hr. congruence.
    + split.
      * intros r. rewrite IHs. split.
        -- intros (l1 & k1 & l2 & -> & Hs & Hl1).
           exists ((k, r') :: l1), k1, l2. repeat split; [done|by constructor].
        -- intros ([|[k0 r0] l1] & k1 & l2 & Heq & Hs & Hl1).
           ++ injection Heq as _ <- _. congruence.
           ++ injection Heq as _ _ ->. apply Forall_cons in Hl1 as [_ Hl1]. eauto 6.
      * rewrite IHn. rewrite Forall_cons. simpl. tauto.
Qed.

(** X23: after a lookup by short URL that missed and then built and
    cached a registry, the same lookup is answered from the cache by
    that very registry, in whatever order the map is ranged over, when
    the registry's stripped short URL prefixes the stripped URL; when it
    does not, the same lookup misses again and calls the service
    again. *)
Theorem X23_short_url_lookup_again rp (enum enum1 : list (string * R))
    (URL : string) st (r : R) st1 :
  enumerates enum st →
  findRegistryByShortURL enum URL = None →
  GetRegistryByShortURL rp enum URL st = (Return (Some r, None), st1) →
  enumerates enum1 st1 →
  (serves r (TrimURLScheme URL) = true →
     GetRegistryByShortURL rp enum1 URL st1 = (Return (Some r, None), st1))
  ∧ (serves r (TrimURLScheme URL) = false →
     calls (GetRegistryByShortURL rp enum1 URL st1).2
     = calls st1 ++ [CallGetByURL URL]).
Proof.
  intros Henum Hnone Hrun Henum1.
  apply GetRegistryByShortURL_cases in Hrun
    as [(r0 & Hr0 & _)|(_ & _ & [[_ Hno]|(r0 & [= <-] & Hreg)])];
    [congruence|by destruct (Hno r)|].
  assert (∀ r', findRegistryByShortURL enum1 URL = Some r' →
                r' = r ∧ serves r (TrimURLScheme URL) = true) as Honly.
  { intros r' Hr'. apply findRegistryByShortURL_Some in Hr' as (k & Hin & Hs).
    apply (enumerates_elem _ _ _ _ Henum1) in Hin. rewrite Hreg in Hin.
    apply lookup_insert_Some in Hin as [[_ <-]|[_ Hin]]; [done|].
    apply (enumerates_elem _ _ _ _ Henum) in Hin.
    rewrite (findRegistryByShortURL_None _ _ Hnone _ _ Hin) in Hs. done. }
  split; intros Hs.
  - destruct (findRegistryByShortURL enum1 URL) as [r'|] eqn:E.
    + destruct (Honly r' eq_refl) as [-> _].
      unfold GetRegistryByShortURL. by rewrite E.
    + eapply findRegistryByShortURL_None in E.
      * rewrite Hs in E. done.
      * apply (enumerates_elem _ _ _ _ Henum1). rewrite Hreg.
        apply lookup_insert_eq.
  - destruct (findRegistryByShortURL enum1 URL) as [r'|] eqn:E.
    + destruct (Honly r' eq_refl) as [_ Hs']. congruence.
    + destruct (GetRegistryByShortURL rp enum1 URL st1) as [out st2] eqn:Hrun2.
      apply GetRegistryByShortURL_cases in Hrun2
        as [(r0 & Hr0 & _)|(_ & Hcalls & _)]; [congruence|done].
Qed.

End short_url_properties.

Lemma X23_witness :
  let URL := "github.com/helm/charts/cassandra" in
  let r := double.mkLive 0 "helm-charts" "github.com/helm/charts" false in
  let st1 := mkState 1 {[ "helm-charts" := r ]} [CallGetByURL URL] in
  let enum1 := [("helm-charts", r)] in
  (serves (ProviderDeps0 := double.deps) r
     (TrimURLScheme (ProviderDeps := double.deps) URL) = true →
     GetRegistryByShortURL (ProviderDeps0 := double.deps)
       double.charts_provider enum1 URL st1
     = (Return (Some r, None), st1))
  ∧ (serves (ProviderDeps0 := double.deps) r
       (TrimURLScheme (ProviderDeps := double.deps) URL) = false →
     calls (GetRegistryByShortURL (ProviderDeps0 := double.deps)
              double.charts_provider enum1 URL st1).2
     = calls st1 ++ [CallGetByURL URL]).
Proof.
  intros URL r st1 enum1.
  apply (X23_short_url_lookup_again (ProviderDeps0 := double.deps)
           double.charts_provider [] enum1 URL (init 0) r st1).
  - enumerates_by_compute.
  - reflexivity.
  - reflexivity.
  - enumerates_by_compute.
Defined.
